(** * Relief-camp bed allocation server: a shallow embedding

    The server under study is the JSON-file backed Express application of
    [src/models/camp.js] (the block that starts with
    [const fs = require("fs").promises]).  Every handler reads the three
    collections (users, camps, selections) from disk, works on the parsed
    arrays and writes the changed arrays back.  A handler is embedded as a
    pure function from the stored collections and the request to the new
    stored collections and the response; requests are taken one at a time.

    JavaScript values are embedded as follows.
    - A number is an integer in [Z]; the counters of this program (ids and
      bed counts) stay far inside the range where JavaScript numbers are
      exact integers.  [NaN] is a value of its own.
    - A string is a [string] whose characters are code units below 256.
    - An object with free-form fields (a stored user) is a finite map from
      field names to values; camps and selections, whose fields are fixed by
      the code, are records.
    - A collection is a [list]; [find]/[findIndex] is stdpp's [list_find],
      which yields the first matching index together with its element, so a
      mutation of the found element is an update of the list at that index.
    - Request bodies carry scalars (absent fields, [null], booleans,
      integers, text); nested arrays and objects are not modelled.
    - The clock ([new Date().toISOString()]) is an argument of the handlers
      that use it; [bcrypt] and [jsonwebtoken] are parameters.

    The store is the content of the three files.  [JSON.stringify] writes a
    [NaN] as [null] and drops fields whose value is [undefined]; it does so
    alike in the files and in the responses.  A bed count is the one number
    that can be [NaN] when written and is read again by a later request, so
    its stored form is [option Z] with [None] for that [null].  In a stored
    user only [id], [email], [password], [name] and [role] are read again, and
    registration stores none of them as [NaN] or [undefined]. *)

From Stdlib Require Import ZArith Ascii String.
From stdpp Require Import base decidable option list gmap strings fin_maps.

Local Open Scope string_scope.
Local Open Scope Z_scope.

(** ** JavaScript scalars *)

Inductive JsVal :=
| VUndef
| VNull
| VBool (b : bool)
| VNum (z : Z)
| VNaN
| VStr (s : string).

Global Instance JsVal_eq_dec : EqDecision JsVal.
Proof. solve_decision. Defined.

(** [!v] is [negb (truthy v)]. *)
Definition truthy (v : JsVal) : bool :=
  match v with
  | VUndef | VNull | VNaN => false
  | VBool b => b
  | VNum z => negb (z =? 0)
  | VStr s => negb (String.eqb s "")
  end.

(** [a === b]. *)
Definition strict_eq (a b : JsVal) : bool :=
  match a, b with
  | VNaN, _ | _, VNaN => false
  | _, _ => bool_decide (a = b)
  end.

(** [a || b] on values. *)
Definition js_or (a b : JsVal) : JsVal := if truthy a then a else b.

(** White space in the sense of [trim] and of [parseInt], restricted to code
    units below 256: TAB, LF, VT, FF, CR, SP and NBSP. *)
Definition is_ws (a : ascii) : bool :=
  let n := nat_of_ascii a in
  ((9 <=? n)%nat && (n <=? 13)%nat) || (n =? 32)%nat || (n =? 160)%nat.

Fixpoint trim_start (s : string) : string :=
  match s with
  | String a s' => if is_ws a then trim_start s' else s
  | EmptyString => EmptyString
  end.

Definition string_rev (s : string) : string :=
  string_of_list_ascii (rev (list_ascii_of_string s)).

(** [s.trim()] *)
Definition trim (s : string) : string :=
  string_rev (trim_start (string_rev (trim_start s))).

(** The value of a digit in the given radix, if it is one. *)
Definition digit_val (radix : Z) (a : ascii) : option Z :=
  let n := Z.of_nat (nat_of_ascii a) in
  let d :=
    if (48 <=? n) && (n <=? 57) then Some (n - 48)
    else if (97 <=? n) && (n <=? 122) then Some (n - 97 + 10)
    else if (65 <=? n) && (n <=? 90) then Some (n - 65 + 10)
    else None in
  match d with
  | Some k => if k <? radix then Some k else None
  | None => None
  end.

(** The longest prefix of digits, read as a number; [None] when the prefix is
    empty. *)
Fixpoint parse_digits (radix : Z) (s : string) (acc : option Z) : option Z :=
  match s with
  | String a s' =>
      match digit_val radix a with
      | Some d => parse_digits radix s' (Some (radix * default 0 acc + d))
      | None => acc
      end
  | EmptyString => acc
  end.

(** [Number.parseInt(s)] on a string, without a radix argument: leading white
    space, an optional sign, an optional [0x]/[0X] prefix, then digits.
    [None] is [NaN]. *)
Definition parseInt_str (s : string) : option Z :=
  let s1 := trim_start s in
  let '(sign, s2) :=
    match s1 with
    | String "-"%char r => (-1, r)
    | String "+"%char r => (1, r)
    | _ => (1, s1)
    end in
  let '(radix, s3) :=
    match s2 with
    | String "0"%char (String "x"%char r) => (16, r)
    | String "0"%char (String "X"%char r) => (16, r)
    | _ => (10, s2)
    end in
  (λ m, sign * m) <$> parse_digits radix s3 None.

(** [Number.parseInt(v)]: the argument is first turned into a string.  An
    integer prints as its decimal digits; [undefined], [null], [NaN] and the
    booleans print as words that start with no digit. *)
Definition parseInt (v : JsVal) : option Z :=
  match v with
  | VNum z => Some z
  | VStr s => parseInt_str s
  | VUndef | VNull | VBool _ | VNaN => None
  end.

(** A number that may be [NaN], as a value. *)
Definition num_val (n : option Z) : JsVal :=
  match n with Some z => VNum z | None => VNaN end.

(** ** Stored data *)

(** A stored user is a free-form object. *)
Abbreviation User := (gmap string JsVal).

(** [o.k]: a missing field reads as [undefined]. *)
Definition js_get (o : User) (k : string) : JsVal := default VUndef (o !! k).

(** A bed count as it is stored: a number, or [null] when the handler wrote a
    [NaN] (JSON has no [NaN]; [JSON.stringify] writes [null]). *)
Abbreviation Beds := (option Z).

Record Camp := mkCamp {
  camp_id : Z;
  camp_name : JsVal;
  beds : Beds;
  originalBeds : Beds;
  resources : list string;
  contact : JsVal;
  ambulance : JsVal;
  camp_type : string;
  addedBy : JsVal;
  addedDate : string
}.

Record Selection := mkSelection {
  sel_id : Z;
  userId : Z;
  userEmail : JsVal;
  userName : JsVal;
  campId : Z;
  campName : JsVal;
  selectedDate : string
}.

Record Store := mkStore {
  users : list User;
  camps : list Camp;
  selections : list Selection
}.

(** [camp.beds <= 0]; [null] counts as 0 in a comparison. *)
Definition beds_le0 (b : Beds) : bool :=
  match b with Some n => n <=? 0 | None => true end.

(** [camp.beds -= 1] and [camp.beds += 1]; [null] counts as 0 in arithmetic. *)
Definition beds_dec (c : Camp) : Camp :=
  mkCamp (camp_id c) (camp_name c) (Some (default 0 (beds c) - 1))
         (originalBeds c) (resources c) (contact c) (ambulance c)
         (camp_type c) (addedBy c) (addedDate c).

Definition beds_inc (c : Camp) : Camp :=
  mkCamp (camp_id c) (camp_name c) (Some (default 0 (beds c) + 1))
         (originalBeds c) (resources c) (contact c) (ambulance c)
         (camp_type c) (addedBy c) (addedDate c).

(** The camps file written by [initializeDatabase] on first boot. *)
Definition defaultCamps (now : string) : list Camp :=
  [ mkCamp 1 (VStr "Central School Grounds") (Some 24) (Some 24)
           ["Food"; "Water"; "Medical Aid"; "Blankets"]
           (VStr "+91 98765 43210") (VStr "Yes") "default" (VStr "System") now;
    mkCamp 2 (VStr "Community Hall") (Some 12) (Some 12)
           ["Food"; "Water"; "Blankets"; "Clothing"]
           (VStr "+91 98765 11223") (VStr "Nearby") "default" (VStr "System") now;
    mkCamp 3 (VStr "Government High School") (Some 30) (Some 30)
           ["Food"; "Water"; "First Aid"; "Hygiene Kits"]
           (VStr "+91 98765 77889") (VStr "Yes") "default" (VStr "System") now ].

Definition initializeDatabase (now : string) : Store :=
  mkStore [] (defaultCamps now) [].

(** ** Requests and responses *)

(** The identity and role claim that [authenticateToken] puts in [req.user]:
    the payload signed at registration or login. *)
Record Claims := mkClaims {
  claim_id : Z;
  claim_email : JsVal;
  claim_role : string
}.

(** The body of [POST /api/camps]. *)
Record CampBody := mkCampBody {
  b_name : JsVal;
  b_beds : JsVal;
  b_resources : JsVal;
  b_contact : JsVal;
  b_ambulance : JsVal
}.

Inductive Response :=
| Err (status : Z) (error : string)
| CampAdded (camp : Camp)
| CampDeleted
| CampSelected (selection : Selection)
| SelectionCancelled.

(** The error names of the specification, as the handlers answer them. *)
Inductive ErrorKind :=
| InvalidInput | Forbidden | NotFound | Conflict | CapacityExhausted | Internal.

Definition error_kind (r : Response) : option ErrorKind :=
  match r with
  | Err 403 _ => Some Forbidden
  | Err 404 _ => Some NotFound
  | Err 400 "You already have a camp selected" => Some Conflict
  | Err 400 "This camp is full" => Some CapacityExhausted
  | Err 400 _ => Some InvalidInput
  | Err _ _ => Some Internal
  | _ => None
  end.

Definition internal_error : Response := Err 500 "Internal server error".

(** [users.find((u) => u.id === id)] *)
Definition find_user (us : list User) (id : Z) : option (nat * User) :=
  list_find (λ u, strict_eq (js_get u "id") (VNum id) = true) us.

(** [camps.find((c) => c.id === campId)] / [camps.findIndex(...)] *)
Definition find_camp (cs : list Camp) (cid : Z) : option (nat * Camp) :=
  list_find (λ c, camp_id c = cid) cs.

(** [selections.find((s) => s.userId === id)] / [findIndex] *)
Definition find_selection (ss : list Selection) (uid : Z)
  : option (nat * Selection) :=
  list_find (λ s, userId s = uid) ss.

(** ** The allocation handlers *)

(** [s.split(",")] *)
Fixpoint split_on (sep : ascii) (s : string) : list string :=
  match s with
  | EmptyString => [EmptyString]
  | String a s' =>
      if Ascii.eqb a sep then EmptyString :: split_on sep s'
      else match split_on sep s' with
           | h :: t => String a h :: t
           | [] => [String a EmptyString]
           end
  end.

(** The [resources] field of a new camp.  A truthy value is split as a
    string; a truthy value that is no string has no [split] method, and the
    call throws ([None]). *)
Definition camp_resources (v : JsVal) : option (list string) :=
  if truthy v then
    match v with
    | VStr s =>
        Some (filter (λ r, r ≠ "") (trim <$> split_on ","%char s))
    | _ => None
    end
  else Some ["Basic supplies"].

(** [Math.max(...xs)] for a non-empty [xs]. *)
Definition Math_max (x : Z) (xs : list Z) : Z := foldl Z.max x xs.

(** [camps.length > 0 ? Math.max(...camps.map((c) => c.id)) + 1 : 1] *)
Definition next_camp_id (cs : list Camp) : Z :=
  match camp_id <$> cs with
  | [] => 1
  | x :: xs => Math_max x xs + 1
  end.

(** [POST /api/camps].  The exceptions of the handler body (a [resources]
    value without [split], a caller that is no stored user) are caught by its
    [catch] and answered with status 500, before anything is written. *)
Definition add_camp (st : Store) (u : Claims) (body : CampBody) (now : string)
  : Store * Response :=
  if negb (String.eqb (claim_role u) "volunteer") then
    (st, Err 403 "Only volunteers can add camps")
  else if negb (truthy (b_name body)) || negb (truthy (b_beds body)) then
    (st, Err 400 "Camp name and beds are required")
  else
    let volunteer := find_user (users st) (claim_id u) in
    match camp_resources (b_resources body) with
    | None => (st, internal_error)
    | Some rs =>
        match volunteer with
        | None => (st, internal_error)
        | Some (_, v) =>
            let newCamp :=
              mkCamp (next_camp_id (camps st))
                     (b_name body)
                     (parseInt (b_beds body))
                     (parseInt (b_beds body))
                     rs
                     (js_or (b_contact body) (VStr ""))
                     (js_or (b_ambulance body) (VStr "No"))
                     "volunteer-added"
                     (js_get v "name")
                     now in
            (mkStore (users st) (camps st ++ [newCamp]) (selections st),
             CampAdded newCamp)
        end
    end.

(** [DELETE /api/camps/:id].  The route parameter is a string; when it reads
    as [NaN] no camp id is strictly equal to it and [findIndex] yields -1. *)
Definition delete_camp (st : Store) (u : Claims) (idParam : string)
  : Store * Response :=
  if negb (String.eqb (claim_role u) "volunteer") then
    (st, Err 403 "Only volunteers can delete camps")
  else
    match parseInt_str idParam with
    | None => (st, Err 404 "Camp not found")
    | Some cid =>
        match find_camp (camps st) cid with
        | None => (st, Err 404 "Camp not found")
        | Some (campIndex, camp) =>
            if String.eqb (camp_type camp) "default" then
              (st, Err 403 "Cannot delete default camps")
            else
              let updatedSelections :=
                filter (λ s, campId s ≠ cid) (selections st) in
              (mkStore (users st) (delete campIndex (camps st))
                       updatedSelections,
               CampDeleted)
        end
    end.

(** [POST /api/camps/:id/select].  The camps are written as soon as the bed
    count is decremented; the selection is built after that, and building it
    throws when the caller is no stored user. *)
Definition select_camp (st : Store) (u : Claims) (idParam : string)
    (now : string) : Store * Response :=
  if negb (String.eqb (claim_role u) "refugee") then
    (st, Err 403 "Only refugees can select camps")
  else
    match parseInt_str idParam with
    | None => (st, Err 404 "Camp not found")
    | Some cid =>
        match find_camp (camps st) cid with
        | None => (st, Err 404 "Camp not found")
        | Some (i, camp) =>
            match find_selection (selections st) (claim_id u) with
            | Some _ => (st, Err 400 "You already have a camp selected")
            | None =>
                if beds_le0 (beds camp) then (st, Err 400 "This camp is full")
                else
                  let camps' := alter beds_dec i (camps st) in
                  match find_user (users st) (claim_id u) with
                  | None =>
                      (mkStore (users st) camps' (selections st),
                       internal_error)
                  | Some (_, user) =>
                      let newSelection :=
                        mkSelection
                          (Z.of_nat (length (selections st)) + 1)
                          (claim_id u)
                          (claim_email u)
                          (js_get user "name")
                          cid
                          (camp_name camp)
                          now in
                      (mkStore (users st) camps'
                               (selections st ++ [newSelection]),
                       CampSelected newSelection)
                  end
            end
        end
    end.

(** [DELETE /api/selections/my] *)
Definition cancel_selection (st : Store) (u : Claims) : Store * Response :=
  match find_selection (selections st) (claim_id u) with
  | None => (st, Err 404 "No selection found")
  | Some (selectionIndex, selection) =>
      let camps' :=
        match find_camp (camps st) (campId selection) with
        | Some (i, _) => alter beds_inc i (camps st)
        | None => camps st
        end in
      (mkStore (users st) camps' (delete selectionIndex (selections st)),
       SelectionCancelled)
  end.

(** ** Sequences of requests *)

Inductive Request :=
| SelectCamp (u : Claims) (idParam : string) (now : string)
| CancelSelection (u : Claims)
| AddCamp (u : Claims) (body : CampBody) (now : string)
| DeleteCamp (u : Claims) (idParam : string).

Definition handle (st : Store) (r : Request) : Store * Response :=
  match r with
  | SelectCamp u idParam now => select_camp st u idParam now
  | CancelSelection u => cancel_selection st u
  | AddCamp u body now => add_camp st u body now
  | DeleteCamp u idParam => delete_camp st u idParam
  end.

(** The store after a sequence of requests, served one after the other. *)
Definition run (st : Store) (rs : list Request) : Store :=
  foldl (λ s r, (handle s r).1) st rs.

(** ** Registration, login and token verification *)

(** The body of [POST /api/register]. *)
Record RegisterBody := mkRegisterBody {
  r_name : JsVal;
  r_email : JsVal;
  r_password : JsVal;
  r_role : JsVal;
  r_age : JsVal;
  r_contact : JsVal;
  r_address : JsVal;
  r_needs : JsVal;
  r_skills : JsVal;
  r_availability : JsVal
}.

(** The body of [POST /api/login]. *)
Record LoginBody := mkLoginBody {
  l_email : JsVal;
  l_password : JsVal
}.

(** What the three handlers answer: an error, or a JSON object with a [user]
    field (and, for registration and login, a message and a token). *)
Inductive AuthResponse :=
| AuthErr (status : Z) (error : string)
| AuthOk (status : Z) (message : string) (user : User) (token : string)
| Verified (user : User).

(** The [user] field of a response, when it has one. *)
Definition response_user (r : AuthResponse) : option User :=
  match r with
  | AuthErr _ _ => None
  | AuthOk _ _ u _ => Some u
  | Verified u => Some u
  end.

(** [const { password: _, ...userResponse } = user]: the rest pattern copies
    every field but [password]. *)
Definition without_password (user : User) : User := delete "password" user.

Section Auth.
(** The two libraries the handlers call: [bcrypt.hash(p, 10)],
    [bcrypt.compare(p, h)] (both on strings; they throw on anything else)
    and [jwt.sign({ id, email, role }, JWT_SECRET, { expiresIn: "24h" })]. *)
Variable bcrypt_hash : string → string.
Variable bcrypt_compare : string → string → bool.
Variable jwt_sign : JsVal → JsVal → JsVal → string.

(** [users.find((user) => user.email === email)] *)
Definition find_email (us : list User) (email : JsVal) : option (nat * User) :=
  list_find (λ u, strict_eq (js_get u "email") email = true) us.

(** The role-specific fields added to [newUser]. *)
Definition role_fields (b : RegisterBody) (newUser : User) : User :=
  if strict_eq (r_role b) (VStr "refugee") then
    <["needs" := r_needs b]> (<["address" := r_address b]> newUser)
  else if strict_eq (r_role b) (VStr "volunteer") then
    <["availability" := r_availability b]>
      (<["skills" := r_skills b]> newUser)
  else newUser.

(** [POST /api/register] *)
Definition register (st : Store) (b : RegisterBody) (now : string)
  : Store * AuthResponse :=
  if negb (truthy (r_name b)) || negb (truthy (r_email b))
     || negb (truthy (r_password b)) || negb (truthy (r_role b)) then
    (st, AuthErr 400 "Missing required fields")
  else if negb (strict_eq (r_role b) (VStr "volunteer")
                || strict_eq (r_role b) (VStr "refugee")) then
    (st, AuthErr 400 "Invalid role")
  else
    match find_email (users st) (r_email b) with
    | Some _ => (st, AuthErr 400 "User already exists with this email")
    | None =>
        match r_password b with
        | VStr password =>
            let hashedPassword := bcrypt_hash password in
            let newUser : User :=
              role_fields b
                (<["registeredDate" := VStr now]>
                (<["contact" := r_contact b]>
                (<["age" := num_val (parseInt (r_age b))]>
                (<["role" := r_role b]>
                (<["password" := VStr hashedPassword]>
                (<["email" := r_email b]>
                (<["name" := r_name b]>
                (<["id" := VNum (Z.of_nat (length (users st)) + 1)]>
                 ∅)))))))) in
            let token :=
              jwt_sign (js_get newUser "id") (js_get newUser "email")
                       (js_get newUser "role") in
            (mkStore (users st ++ [newUser]) (camps st) (selections st),
             AuthOk 201 "User registered successfully"
                    (without_password newUser) token)
        | _ => (st, AuthErr 500 "Internal server error")
        end
    end.

(** [POST /api/login] *)
Definition login (st : Store) (b : LoginBody) : Store * AuthResponse :=
  if negb (truthy (l_email b)) || negb (truthy (l_password b)) then
    (st, AuthErr 400 "Email and password required")
  else
    match find_email (users st) (l_email b) with
    | None => (st, AuthErr 401 "Invalid credentials")
    | Some (_, user) =>
        match l_password b, js_get user "password" with
        | VStr password, VStr hash =>
            if bcrypt_compare password hash then
              let token :=
                jwt_sign (js_get user "id") (js_get user "email")
                         (js_get user "role") in
              (st, AuthOk 200 "Login successful"
                          (without_password user) token)
            else (st, AuthErr 401 "Invalid credentials")
        | _, _ => (st, AuthErr 500 "Internal server error")
        end
    end.

(** [GET /api/verify] *)
Definition verify (st : Store) (u : Claims) : Store * AuthResponse :=
  match find_user (users st) (claim_id u) with
  | None => (st, AuthErr 404 "User not found")
  | Some (_, user) => (st, Verified (without_password user))
  end.
End Auth.

(** ** Vocabulary of the statements *)

(** The camp a route parameter names: the parameter is parsed, then looked up
    by id. *)
Definition route_camp (cs : list Camp) (idParam : string)
  : option (nat * Camp) :=
  parseInt_str idParam ≫= find_camp cs.

(** The caller is one of the stored users. *)
Definition registered (st : Store) (u : Claims) : Prop :=
  is_Some (find_user (users st) (claim_id u)).

(** The number of stored (active) selections that reference a camp id. *)
Definition selection_count (cid : Z) (ss : list Selection) : nat :=
  length (filter (λ s, campId s = cid) ss).

(** The bed equation: every stored camp has numeric bed counts, and its
    current count is its original count minus the selections that reference
    it. *)
Definition bed_balance (st : Store) : Prop :=
  ∀ c, c ∈ camps st →
    ∃ b o, beds c = Some b ∧ originalBeds c = Some o ∧
           b = o - Z.of_nat (selection_count (camp_id c) (selections st)).

(** The bed bounds: every stored camp has numeric bed counts with
    [0 ≤ current ≤ original]. *)
Definition bed_bounds (st : Store) : Prop :=
  ∀ c, c ∈ camps st →
    ∃ b o, beds c = Some b ∧ originalBeds c = Some o ∧ 0 ≤ b ≤ o.

(** No two stored camps share an id. *)
Definition camp_ids_unique (st : Store) : Prop :=
  NoDup (camp_id <$> camps st).

(** Every stored selection references a stored camp. *)
Definition selections_resolve (st : Store) : Prop :=
  ∀ s, s ∈ selections st → campId s ∈ camp_id <$> camps st.

(** Every user is referenced by at most one stored selection. *)
Definition one_selection_per_user (st : Store) : Prop :=
  ∀ uid, (length (filter (λ s, userId s = uid) (selections st)) ≤ 1)%nat.

(** No two stored selections share an id. *)
Definition selection_ids_unique (st : Store) : Prop :=
  NoDup (sel_id <$> selections st).

(** A request whose caller, where the handler reads the caller's stored
    record after it has written, is a stored user, and whose bed count, where
    it has one, reads as an integer. *)
Definition plain_request (st : Store) (r : Request) : Prop :=
  match r with
  | SelectCamp u _ _ => registered st u
  | AddCamp _ body _ => is_Some (parseInt (b_beds body))
  | CancelSelection _ | DeleteCamp _ _ => True
  end.

(** A plain request whose bed count, where it has one, is not negative. *)
Definition sound_request (st : Store) (r : Request) : Prop :=
  match r with
  | SelectCamp u _ _ => registered st u
  | AddCamp _ body _ => ∃ n, parseInt (b_beds body) = Some n ∧ 0 ≤ n
  | CancelSelection _ | DeleteCamp _ _ => True
  end.

(** The stores a request can lead to, read off the handlers: a request that
    is rejected before any write leaves the store as it is; the other cases
    are the writes of the four handlers ([t_select_torn] is [select_camp]
    failing after it has written the camps). *)
Inductive transition (st : Store) : Request → Store → Prop :=
| t_rejected r :
    transition st r st
| t_selected u idParam now cid i c sel :
    find_camp (camps st) cid = Some (i, c) →
    find_selection (selections st) (claim_id u) = None →
    beds_le0 (beds c) = false →
    userId sel = claim_id u →
    campId sel = cid →
    sel_id sel = Z.of_nat (length (selections st)) + 1 →
    transition st (SelectCamp u idParam now)
      (mkStore (users st) (alter beds_dec i (camps st))
               (selections st ++ [sel]))
| t_select_torn u idParam now cid i c :
    find_camp (camps st) cid = Some (i, c) →
    beds_le0 (beds c) = false →
    ¬ registered st u →
    transition st (SelectCamp u idParam now)
      (mkStore (users st) (alter beds_dec i (camps st)) (selections st))
| t_cancelled u k sel :
    find_selection (selections st) (claim_id u) = Some (k, sel) →
    transition st (CancelSelection u)
      (mkStore (users st)
               (match find_camp (camps st) (campId sel) with
                | Some (i, _) => alter beds_inc i (camps st)
                | None => camps st
                end)
               (delete k (selections st)))
| t_added u body now c :
    truthy (b_beds body) = true →
    camp_id c = next_camp_id (camps st) →
    beds c = parseInt (b_beds body) →
    originalBeds c = parseInt (b_beds body) →
    transition st (AddCamp u body now)
      (mkStore (users st) (camps st ++ [c]) (selections st))
| t_deleted u idParam cid i c :
    find_camp (camps st) cid = Some (i, c) →
    transition st (DeleteCamp u idParam)
      (mkStore (users st) (delete i (camps st))
               (filter (λ s, campId s ≠ cid) (selections st))).

(** The three facts that the bed equation needs to be kept by every
    request. *)
Definition consistent (st : Store) : Prop :=
  camp_ids_unique st ∧ selections_resolve st ∧ bed_balance st.

(** [r] is the record [stored] with its [password] field removed: it has no
    such field and agrees with [stored] on every other field. *)
Definition password_removed (stored r : User) : Prop :=
  r !! "password" = None ∧ ∀ k, k ≠ "password" → r !! k = stored !! k.

(** ** Sample data *)

Definition stored_user (id : Z) (name email role : string) : User :=
  <["id" := VNum id]>
  (<["name" := VStr name]>
  (<["email" := VStr email]>
  (<["password" := VStr "$2b$10$N9qo8uLOickgx2ZMRZoMye"]>
  (<["role" := VStr role]> ∅)))).

Definition ann : User := stored_user 1 "Ann" "ann@example.org" "refugee".
Definition bob : User := stored_user 2 "Bob" "bob@example.org" "refugee".
Definition cleo : User := stored_user 3 "Cleo" "cleo@example.org" "refugee".
Definition vic : User := stored_user 4 "Vic" "vic@example.org" "volunteer".

Definition as_ann : Claims := mkClaims 1 (VStr "ann@example.org") "refugee".
Definition as_bob : Claims := mkClaims 2 (VStr "bob@example.org") "refugee".
Definition as_cleo : Claims := mkClaims 3 (VStr "cleo@example.org") "refugee".
Definition as_vic : Claims := mkClaims 4 (VStr "vic@example.org") "volunteer".

Definition noon : string := "2024-07-01T12:00:00.000Z".

(** The database after first boot and four registrations. *)
Definition seeded : Store := mkStore [ann; bob; cleo; vic] (defaultCamps noon) [].

(** A volunteer's camp with five beds, and the database once it is added. *)
Definition tent_body : CampBody :=
  mkCampBody (VStr "Tent City") (VStr "5") (VStr "Water, Food") VUndef VUndef.

Definition with_tent : Store := (add_camp seeded as_vic tent_body noon).1.

(** The database once Ann has selected the Community Hall. *)
Definition ann_in_hall : Store := (select_camp seeded as_ann "2" noon).1.

(** A store whose only selection references a camp that is not stored. *)
Definition stranded : Store :=
  mkStore [ann; vic] []
          [mkSelection 1 1 (VStr "ann@example.org") (VStr "Ann") 1
                       (VStr "Riverside Shelter") noon].

(** A day of requests against the seeded database. *)
Definition busy_day : list Request :=
  [ AddCamp as_vic tent_body noon;
    SelectCamp as_ann "4" noon;
    SelectCamp as_bob "2" noon;
    SelectCamp as_ann "3" noon;
    CancelSelection as_ann;
    DeleteCamp as_vic "4";
    SelectCamp as_ann "2" noon;
    CancelSelection as_cleo ].

(** Stand-ins for the two libraries, for running the handlers on sample
    requests. *)
Definition sample_hash (p : string) : string := "$2b$10$" +:+ p.
Definition sample_compare (p h : string) : bool := String.eqb (sample_hash p) h.
Definition sample_sign (id email role : JsVal) : string :=
  match email with VStr e => "token-for-" +:+ e | _ => "token" end.

Definition ann_login : LoginBody :=
  mkLoginBody (VStr "ann@example.org") (VStr "N9qo8uLOickgx2ZMRZoMye").

Definition dora_registration : RegisterBody :=
  mkRegisterBody (VStr "Dora") (VStr "dora@example.org") (VStr "s3cret")
                 (VStr "refugee") (VStr "41") (VStr "555-0101")
                 (VStr "12 Mill Lane") (VStr "Insulin") VUndef VUndef.

(** A database whose only camp has a single bed. *)
Definition one_bed : Store :=
  mkStore [ann; bob; cleo; vic]
          [mkCamp 7 (VStr "Parish Hall") (Some 1) (Some 1) ["Water"]
                  (VStr "") (VStr "No") "volunteer-added" (VStr "Vic") noon]
          [].

(** ** The rest of the server: the token check, the reading routes, first boot *)

(** [authHeader && authHeader.split(" ")[1]]: the token the middleware reads
    from the [authorization] header.  [None] is [undefined] (no header, or a
    header with no second piece); an empty header gives the empty text. *)
Definition header_token (authHeader : option string) : option string :=
  match authHeader with
  | None => None
  | Some h =>
      if String.eqb h "" then Some "" else split_on " "%char h !! 1%nat
  end.

(** What the server answers on its routes. *)
Inductive Answer :=
| Engine (r : Response)
| Auth (r : AuthResponse)
| CampList (cs : list Camp)
| MySelection (s : Selection)
| NoAssignments.

(** [GET /api/camps] *)
Definition list_camps (st : Store) : Answer := CampList (camps st).

(** [GET /api/selections/my] *)
Definition my_selection (st : Store) (u : Claims) : Answer :=
  match find_selection (selections st) (claim_id u) with
  | None => Engine (Err 404 "No selection found")
  | Some (_, userSelection) => MySelection userSelection
  end.

(** [GET /api/volunteer-assignments]: a placeholder that answers the empty
    list to volunteers. *)
Definition volunteer_assignments (u : Claims) : Answer :=
  if negb (String.eqb (claim_role u) "volunteer") then
    Engine (Err 403 "Only volunteers can access this endpoint")
  else NoAssignments.

(** The requests of the server, each with the [authorization] header where
    the route sits behind [authenticateToken]. *)
Inductive HttpRequest :=
| PostRegister (b : RegisterBody)
| PostLogin (b : LoginBody)
| GetCamps (authHeader : option string)
| PostCamps (authHeader : option string) (body : CampBody)
| DeleteCampById (authHeader : option string) (idParam : string)
| PostSelect (authHeader : option string) (idParam : string)
| DeleteMySelection (authHeader : option string)
| GetMySelection (authHeader : option string)
| GetVolunteerAssignments (authHeader : option string)
| GetVerify (authHeader : option string).

Section Server.
(** [jwt.verify(token, JWT_SECRET, ...)] at a given time: the decoded claim,
    or [None] for a token that is invalid or expired. *)
Variable jwt_verify : string → string → option Claims.
Variable bcrypt_hash : string → string.
Variable bcrypt_compare : string → string → bool.
Variable jwt_sign : JsVal → JsVal → JsVal → string.

(** [authenticateToken]: the error it answers, or the claim it puts in
    [req.user] before it calls the route. *)
Definition authenticateToken (now : string) (authHeader : option string)
  : Response + Claims :=
  match header_token authHeader with
  | None => inl (Err 401 "Access token required")
  | Some token =>
      if String.eqb token "" then inl (Err 401 "Access token required")
      else match jwt_verify now token with
           | None => inl (Err 403 "Invalid or expired token")
           | Some user => inr user
           end
  end.

(** A route registered with [authenticateToken] in front of it. *)
Definition protected (st : Store) (now : string) (authHeader : option string)
    (route : Claims → Store * Answer) : Store * Answer :=
  match authenticateToken now authHeader with
  | inl e => (st, Engine e)
  | inr user => route user
  end.

(** One request, served at time [now]. *)
Definition serve (st : Store) (now : string) (req : HttpRequest)
  : Store * Answer :=
  match req with
  | PostRegister b =>
      let a := register bcrypt_hash jwt_sign st b now in (a.1, Auth a.2)
  | PostLogin b =>
      let a := login bcrypt_compare jwt_sign st b in (a.1, Auth a.2)
  | GetCamps h => protected st now h (λ _, (st, list_camps st))
  | PostCamps h body =>
      protected st now h
        (λ u, let a := add_camp st u body now in (a.1, Engine a.2))
  | DeleteCampById h idParam =>
      protected st now h
        (λ u, let a := delete_camp st u idParam in (a.1, Engine a.2))
  | PostSelect h idParam =>
      protected st now h
        (λ u, let a := select_camp st u idParam now in (a.1, Engine a.2))
  | DeleteMySelection h =>
      protected st now h
        (λ u, let a := cancel_selection st u in (a.1, Engine a.2))
  | GetMySelection h => protected st now h (λ u, (st, my_selection st u))
  | GetVolunteerAssignments h =>
      protected st now h (λ u, (st, volunteer_assignments u))
  | GetVerify h =>
      protected st now h (λ u, let a := verify st u in (a.1, Auth a.2))
  end.

(** The store after a sequence of timed requests. *)
Definition serve_all (st : Store) (reqs : list (string * HttpRequest))
  : Store :=
  foldl (λ s tr, (serve s tr.1 tr.2).1) st reqs.

(** A request whose caller, when it selects a camp, is a stored user, and
    whose bed count, when it adds a camp, reads as a non-negative integer. *)
Definition honest (st : Store) (now : string) (req : HttpRequest) : Prop :=
  match req with
  | PostSelect h _ =>
      ∀ u, authenticateToken now h = inr u → registered st u
  | PostCamps _ body => ∃ n, parseInt (b_beds body) = Some n ∧ 0 ≤ n
  | _ => True
  end.

(** A sequence of requests, each honest in the store it is served in. *)
Fixpoint honest_run (st : Store) (reqs : list (string * HttpRequest))
  : Prop :=
  match reqs with
  | [] => True
  | tr :: rest => honest st tr.1 tr.2 ∧ honest_run (serve st tr.1 tr.2).1 rest
  end.
End Server.

(** The three collections on disk; [None] is a file that does not exist. *)
Record Disk := mkDisk {
  users_file : option (list User);
  camps_file : option (list Camp);
  selections_file : option (list Selection)
}.

(** [initializeDatabase] on a disk: each file that cannot be accessed is
    written with its initial content, the others are left alone. *)
Definition initializeFiles (now : string) (d : Disk) : Disk :=
  mkDisk
    (Some (match users_file d with Some us => us | None => [] end))
    (Some (match camps_file d with Some cs => cs | None => defaultCamps now end))
    (Some (match selections_file d with Some ss => ss | None => [] end)).

(** [readUsers], [readCamps] and [readSelections] together. *)
Definition read_store (d : Disk) : option Store :=
  us ← users_file d; cs ← camps_file d; ss ← selections_file d;
  Some (mkStore us cs ss).

(** The stored users carry the ids 1, 2, ... in the order they were stored. *)
Definition users_numbered (st : Store) : Prop :=
  ∀ i u, users st !! i = Some u → js_get u "id" = VNum (Z.of_nat i + 1).

(** No two stored users have the same email. *)
Definition emails_unique (st : Store) : Prop :=
  NoDup ((λ u, js_get u "email") <$> users st).

(** The stored selections carry the ids 1, 2, ... in the order they were
    stored. *)
Definition selections_numbered (st : Store) : Prop :=
  ∀ i s, selections st !! i = Some s → sel_id s = Z.of_nat i + 1.

(** The ids of the stored camps of type [default], in order. *)
Definition default_camp_ids (st : Store) : list Z :=
  camp_id <$> filter (λ c, camp_type c = "default") (camps st).

(** A camp without its current bed count. *)
Definition camp_static (c : Camp)
  : Z * JsVal * Beds * list string * JsVal * JsVal * string * JsVal * string :=
  (camp_id c, camp_name c, originalBeds c, resources c, contact c,
   ambulance c, camp_type c, addedBy c, addedDate c).

(** The text has no character [a]. *)
Definition lacks (a : ascii) (s : string) : Prop :=
  a ∉ list_ascii_of_string s.

(** A request that removes nothing from the selections. *)
Definition adds_only (r : Request) : Prop :=
  match r with
  | SelectCamp _ _ _ | AddCamp _ _ _ => True
  | CancelSelection _ | DeleteCamp _ _ => False
  end.

(** A verifier that reads what the signer wrote, for running the server on
    sample requests: the signed text is the email after a fixed prefix. *)
Definition sample_verify (now token : string) : option Claims :=
  if String.eqb token "token-for-ann@example.org" then Some as_ann
  else if String.eqb token "token-for-bob@example.org" then Some as_bob
  else if String.eqb token "token-for-vic@example.org" then Some as_vic
  else None.

Definition bearer (token : string) : option string :=
  Some ("Bearer " +:+ token).

(** ** The model on the scenarios of the specification *)

Example parseInt_samples :
  parseInt (VStr "24") = Some 24 ∧ parseInt (VStr "  -7 beds") = Some (-7) ∧
  parseInt (VStr "0x1F") = Some 31 ∧ parseInt (VStr "0") = Some 0 ∧
  parseInt (VStr "many") = None ∧ parseInt (VStr "") = None ∧
  parseInt (VNum 12) = Some 12 ∧ parseInt VUndef = None.
Proof. by vm_compute. Qed.

Example camp_resources_samples :
  camp_resources (VStr " Food , Water,, Blankets ")
    = Some ["Food"; "Water"; "Blankets"] ∧
  camp_resources VUndef = Some ["Basic supplies"] ∧
  camp_resources (VNum 3) = None.
Proof. by vm_compute. Qed.

(** A camp with one bed: the first refugee gets it, the second is told the
    camp is full. *)
Example last_bed_scenario :
  let st1 := (select_camp one_bed as_ann "7" noon).1 in
  (beds <$> camps st1) = [Some 0] ∧
  (userId <$> selections st1) = [1] ∧
  select_camp st1 as_bob "7" noon = (st1, Err 400 "This camp is full").
Proof. by vm_compute. Qed.

(** A default camp cannot be deleted; a volunteer's camp goes with its
    selection. *)
Example delete_camp_scenario :
  delete_camp seeded as_vic "1"
    = (seeded, Err 403 "Cannot delete default camps") ∧
  let st1 := (select_camp with_tent as_ann "4" noon).1 in
  (camp_id <$> camps st1) = [1; 2; 3; 4] ∧
  (campId <$> selections st1) = [4] ∧
  delete_camp st1 as_vic "4" = (seeded, CampDeleted).
Proof. by vm_compute. Qed.

(** Registration stores the hash under [password] and answers the record
    without it; a second registration with the same email is refused. *)
Example register_scenario :
  let '(st1, answer) :=
    register sample_hash sample_sign seeded dora_registration noon in
  (∃ dora, users st1 = [ann; bob; cleo; vic; dora] ∧
           js_get dora "id" = VNum 5 ∧
           js_get dora "password" = VStr "$2b$10$s3cret" ∧
           answer = AuthOk 201 "User registered successfully"
                           (without_password dora)
                           "token-for-dora@example.org") ∧
  (register sample_hash sample_sign st1 dora_registration noon).2
    = AuthErr 400 "User already exists with this email".
Proof.
  split; [|by vm_compute]. eexists. by vm_compute.
Qed.

(** ** Properties of single requests *)

Lemma route_camp_Some cs idParam i c :
  route_camp cs idParam = Some (i, c) ↔
  ∃ cid, parseInt_str idParam = Some cid ∧ find_camp cs cid = Some (i, c).
Proof.
  unfold route_camp. destruct (parseInt_str idParam) as [cid|]; simpl.
  - split; [eauto|]. by intros (cid' & [= <-] & H).
  - split; [done|]. by intros (cid' & [=] & _).
Qed.

Lemma find_camp_Some cs cid i c :
  find_camp cs cid = Some (i, c) → cs !! i = Some c ∧ camp_id c = cid.
Proof. intros (? & ? & _)%list_find_Some. done. Qed.

Lemma find_selection_Some ss uid k s :
  find_selection ss uid = Some (k, s) → ss !! k = Some s ∧ userId s = uid.
Proof. intros (? & ? & _)%list_find_Some. done. Qed.

Lemma find_selection_None ss uid :
  find_selection ss uid = None ↔ uid ∉ userId <$> ss.
Proof.
  unfold find_selection. rewrite list_find_None, Forall_forall, list_elem_of_fmap.
  split.
  - intros H (s & -> & Hs). by apply (H s).
  - intros H s Hs Heq. apply H. eauto.
Qed.

(** Selecting a camp answers its checks in the order role, camp, existing
    selection, beds. *)
Ltac select_cases st u idParam :=
  unfold select_camp, route_camp, registered in *;
  destruct (String.eqb (claim_role u) "refugee") eqn:Hrole; simpl;
  [ apply String.eqb_eq in Hrole | apply String.eqb_neq in Hrole ];
  [ destruct (parseInt_str idParam) as [cid|]; simpl;
    [ destruct (find_camp (camps st) cid) as [[i c]|] eqn:Hcamp; simpl;
      [ destruct (find_selection (selections st) (claim_id u))
          as [[k s]|] eqn:Hsel; simpl;
        [ | destruct (beds_le0 (beds c)) eqn:Hbeds; simpl;
            [ | destruct (find_user (users st) (claim_id u))
                  as [[j usr]|] eqn:Huser; simpl ] ]
      | ]
    | ]
  | ].

(** C5 (as amended).  For a caller who is a stored user, [select_camp]
    answers Forbidden exactly when the role is not [refugee]; NotFound exactly
    when the role is [refugee] and the camp is absent; Conflict exactly when,
    past those two checks, the caller already has a selection;
    CapacityExhausted exactly when, past those three checks, the bed count
    is at most 0; and when all four checks pass it answers the created
    selection, which is appended to the stored selections. *)
Theorem select_camp_outcome (st : Store) (u : Claims) (idParam now : string)
    (Hreg : registered st u) :
  let r := (select_camp st u idParam now).2 in
  (error_kind r = Some Forbidden ↔ claim_role u ≠ "refugee") ∧
  (error_kind r = Some NotFound ↔
     claim_role u = "refugee" ∧ route_camp (camps st) idParam = None) ∧
  (error_kind r = Some Conflict ↔
     claim_role u = "refugee" ∧ is_Some (route_camp (camps st) idParam) ∧
     is_Some (find_selection (selections st) (claim_id u))) ∧
  (error_kind r = Some CapacityExhausted ↔
     claim_role u = "refugee" ∧
     find_selection (selections st) (claim_id u) = None ∧
     ∃ i c, route_camp (camps st) idParam = Some (i, c) ∧
            beds_le0 (beds c) = true) ∧
  (∀ i c,
     claim_role u = "refugee" →
     route_camp (camps st) idParam = Some (i, c) →
     find_selection (selections st) (claim_id u) = None →
     beds_le0 (beds c) = false →
     ∃ sel, r = CampSelected sel ∧
            userId sel = claim_id u ∧ campId sel = camp_id c ∧
            selections (select_camp st u idParam now).1
              = (selections st ++ [sel])%list).
Proof.
  intros r. subst r. select_cases st u idParam.
  (* the caller is a stored user *)
  all: try (by destruct Hreg).
  all: split_and!.
  (* each equivalence has one side settled by the answer at hand *)
  all: try (split; [done|]).
  all: try (split; [|done]).
  (* the other side: it holds, or it contradicts the checks passed so far *)
  all: try (intros ?; done).
  all: try (by intros (? & ?)).
  all: try (intros (_ & _ & [? [=]]); fail).
  all: try (intros (_ & [? [=]] & _); fail).
  all: try (intros (_ & [=] & _); fail).
  all: try (intros (_ & _ & i' & c' & [= <- <-] & Hle); congruence).
  all: try (intros _; split_and!; eauto; fail).
  (* the success clause *)
  all: try (intros i' c' _ [= <- <-] _ Hle; congruence).
  all: try (intros i' c' _ [=]; fail).
  all: try (intros i' c' ? ? [=]; fail).
  all: intros i' c' _ [= <- <-] _ _; eexists; split_and!; try done; simpl;
       by destruct (find_camp_Some _ _ _ _ Hcamp) as [_ ->].
Qed.

(** C5, the claim as it is written, fails: a volunteer who names an absent
    camp is answered Forbidden, not NotFound. *)
Lemma select_absent_camp_by_volunteer :
  ¬ (error_kind (select_camp seeded as_vic "99" noon).2 = Some NotFound
     ↔ route_camp (camps seeded) "99" = None).
Proof.
  intros [_ H]. assert (Habs : route_camp (camps seeded) "99" = None)
    by (vm_compute; reflexivity).
  specialize (H Habs). vm_compute in H. discriminate H.
Qed.

Lemma select_camp_outcome_witness :
  registered seeded as_ann ∧
  ∃ sel, (select_camp seeded as_ann "2" noon).2 = CampSelected sel ∧
         userId sel = 1 ∧ campId sel = 2.
Proof.
  assert (Hreg : registered seeded as_ann) by (vm_compute; eauto).
  split; [exact Hreg|].
  destruct (select_camp_outcome seeded as_ann "2" noon Hreg)
    as (_ & _ & _ & _ & Hok).
  destruct (Hok 1%nat (mkCamp 2 (VStr "Community Hall") (Some 12) (Some 12)
                         ["Food"; "Water"; "Blankets"; "Clothing"]
                         (VStr "+91 98765 11223") (VStr "Nearby") "default"
                         (VStr "System") noon))
    as (sel & Hr & Hu & Hc & _);
    [vm_compute; reflexivity ..|].
  exists sel. split_and!; [exact Hr | exact Hu | exact Hc].
Defined.

(** Lookups after an in-place update that keeps camp ids. *)
Lemma find_camp_alter (f : Camp → Camp) (i : nat) (cs : list Camp) (cid : Z) :
  (∀ c, camp_id (f c) = camp_id c) →
  find_camp (alter f i cs) cid
  = (λ jc, (jc.1, if decide (jc.1 = i) then f jc.2 else jc.2))
      <$> find_camp cs cid.
Proof.
  intros Hf. unfold find_camp. revert i.
  induction cs as [|c cs IH]; intros i; [done|].
  destruct i as [|i]; simpl.
  - rewrite Hf. case_decide; [done|].
    by destruct (list_find _ cs) as [[j c']|].
  - case_decide; [done|].
    change (list_alter f i cs) with (alter f i cs). rewrite IH. clear IH.
    destruct (list_find _ cs) as [[j c']|]; simpl; [|done].
    destruct (decide (j = i)) as [->|Hne].
    + by rewrite decide_True.
    + rewrite decide_False by lia. done.
Qed.







(** C7.  [delete_camp] answers Forbidden to a caller who is no volunteer.
    For a volunteer it answers NotFound when the camp is absent and Forbidden
    when the camp's type is [default], in each case leaving the store as it
    was; otherwise it succeeds, removes the camp and every selection that
    references its id, and keeps every other camp (with its bed count) and
    every other selection. *)
Theorem delete_camp_outcome (st : Store) (u : Claims) (idParam : string) :
  (claim_role u ≠ "volunteer" →
     (delete_camp st u idParam).1 = st ∧
     error_kind (delete_camp st u idParam).2 = Some Forbidden) ∧
  (claim_role u = "volunteer" →
     (route_camp (camps st) idParam = None →
        (delete_camp st u idParam).1 = st ∧
        error_kind (delete_camp st u idParam).2 = Some NotFound) ∧
     (∀ i c, route_camp (camps st) idParam = Some (i, c) →
        (camp_type c = "default" →
           (delete_camp st u idParam).1 = st ∧
           error_kind (delete_camp st u idParam).2 = Some Forbidden) ∧
        (camp_type c ≠ "default" →
           let st' := (delete_camp st u idParam).1 in
           (delete_camp st u idParam).2 = CampDeleted ∧
           camps st !! i = Some c ∧
           camps st' = delete i (camps st) ∧
           selections st'
             = filter (λ s, campId s ≠ camp_id c) (selections st) ∧
           (∀ s, s ∈ selections st' ↔
                 s ∈ selections st ∧ campId s ≠ camp_id c) ∧
           users st' = users st))).
Proof.
  unfold delete_camp, route_camp.
  destruct (String.eqb (claim_role u) "volunteer") eqn:Hrole; simpl;
    [ apply String.eqb_eq in Hrole | apply String.eqb_neq in Hrole ].
  - split; [done|]. intros _.
    destruct (parseInt_str idParam) as [cid|]; simpl; [|done].
    destruct (find_camp (camps st) cid) as [[i c]|] eqn:Hcamp; simpl; [|done].
    split; [done|]. intros i' c' [= <- <-].
    apply find_camp_Some in Hcamp as [Hi <-].
    destruct (String.eqb (camp_type c) "default") eqn:Hty; simpl;
      [ apply String.eqb_eq in Hty | apply String.eqb_neq in Hty ].
    + done.
    + split; [done|]. intros _. split_and!; try done.
      intros s. rewrite list_elem_of_filter. tauto.
  - done.
Qed.

Lemma delete_camp_outcome_witness :
  claim_role as_vic = "volunteer" ∧
  (delete_camp with_tent as_vic "4").2 = CampDeleted ∧
  camps (delete_camp with_tent as_vic "4").1 = delete 3%nat (camps with_tent).
Proof.
  split; [reflexivity|].
  destruct (delete_camp_outcome with_tent as_vic "4") as [_ Hvol].
  destruct (Hvol eq_refl) as [_ Hfound].
  destruct (Hfound 3%nat
              (mkCamp 4 (VStr "Tent City") (Some 5) (Some 5) ["Water"; "Food"]
                      (VStr "") (VStr "No") "volunteer-added" (VStr "Vic")
                      noon)) as [_ Hdel]; [vm_compute; reflexivity|].
  destruct Hdel as (Hr & _ & Hc & _); [by vm_compute|].
  split; [exact Hr | exact Hc].
Defined.

(** ** Sequences of requests: what each handler writes *)

Lemma handle_transition (st : Store) (r : Request) :
  transition st r (handle st r).1.
Proof.
  destruct r as [u idParam now | u | u body now | u idParam]; simpl.
  - select_cases st u idParam; try apply t_rejected.
    + by eapply t_selected.
    + eapply t_select_torn; eauto. unfold registered. rewrite Huser.
      by intros [? [=]].
  - unfold cancel_selection.
    destruct (find_selection (selections st) (claim_id u)) as [[k sel]|] eqn:Hs;
      simpl; [by apply t_cancelled | apply t_rejected].
  - unfold add_camp.
    destruct (negb (String.eqb (claim_role u) "volunteer"));
      [apply t_rejected|].
    destruct (truthy (b_name body)); simpl; [|apply t_rejected].
    destruct (truthy (b_beds body)) eqn:Hb; simpl; [|apply t_rejected].
    destruct (camp_resources (b_resources body)); [|apply t_rejected].
    destruct (find_user (users st) (claim_id u)) as [[j v]|];
      [|apply t_rejected].
    simpl. by apply t_added.
  - unfold delete_camp.
    destruct (negb (String.eqb (claim_role u) "volunteer"));
      [apply t_rejected|].
    destruct (parseInt_str idParam) as [cid|]; [|apply t_rejected].
    destruct (find_camp (camps st) cid) as [[i c]|] eqn:Hc;
      [|apply t_rejected].
    destruct (String.eqb (camp_type c) "default"); [apply t_rejected|].
    simpl. by eapply t_deleted.
Qed.

Lemma transition_users (st st' : Store) (r : Request) :
  transition st r st' → users st' = users st.
Proof. by destruct 1. Qed.

Lemma run_snoc (st : Store) (rs : list Request) (r : Request) :
  run st (rs ++ [r]) = (handle (run st rs) r).1.
Proof. unfold run. by rewrite foldl_app. Qed.

Lemma run_users (st : Store) (rs : list Request) :
  users (run st rs) = users st.
Proof.
  induction rs as [|r rs IH] using rev_ind; [done|].
  rewrite run_snoc. rewrite <- IH.
  apply (transition_users _ _ r), handle_transition.
Qed.

(** ** One selection per user *)

Lemma no_selection_of_user (ss : list Selection) (uid : Z) :
  uid ∉ userId <$> ss ↔ filter (λ s, userId s = uid) ss = [].
Proof.
  split.
  - intros Hnot. induction ss as [|s ss IH]; [done|].
    rewrite fmap_cons, not_elem_of_cons in Hnot. destruct Hnot as [Hs Hss].
    rewrite filter_cons_False by congruence. by apply IH.
  - intros Hnil (s & -> & Hs)%list_elem_of_fmap.
    by apply (filter_nil_not_elem_of _ _ s Hnil).
Qed.

(** At most one selection per user: the user ids of the stored selections
    are pairwise distinct. *)
Lemma one_selection_NoDup (ss : list Selection) :
  (∀ uid, (length (filter (λ s, userId s = uid) ss) ≤ 1)%nat)
  ↔ NoDup (userId <$> ss).
Proof.
  induction ss as [|s ss IH].
  - split; [intros _; constructor | intros _ uid; simpl; lia].
  - rewrite fmap_cons, NoDup_cons, <- IH. split.
    + intros Hle. split.
      * apply no_selection_of_user. specialize (Hle (userId s)).
        rewrite filter_cons_True in Hle by done. simpl in Hle.
        destruct (filter _ ss); [done | simpl in Hle; lia].
      * intros uid. specialize (Hle uid). rewrite filter_cons in Hle.
        case_decide; simpl in Hle; lia.
    + intros [Hnot Hle] uid. rewrite filter_cons.
      destruct (decide (userId s = uid)) as [<-|Hne]; [|apply Hle].
      apply no_selection_of_user in Hnot. rewrite Hnot. simpl. lia.
Qed.

Lemma transition_one_selection (st st' : Store) (r : Request) :
  transition st r st' →
  one_selection_per_user st → one_selection_per_user st'.
Proof.
  unfold one_selection_per_user. rewrite !one_selection_NoDup.
  destruct 1 as [r | u idParam now cid i c sel Hc Hs Hb Hu Hcid Hid
                 | u idParam now cid i c Hc Hb Hu
                 | u k sel Hs | u body now c Hb Hid Hbeds Horig
                 | u idParam cid i c Hc]; simpl; intros Hnd; try done.
  - (* a selection: the caller had none *)
    rewrite fmap_app. apply NoDup_app.
    split_and!; [done| |apply NoDup_singleton].
    intros x Hx Hx'. change (userId <$> [sel]) with [userId sel] in Hx'.
    apply list_elem_of_singleton in Hx'. subst x.
    rewrite Hu in Hx. by apply find_selection_None in Hs.
  - (* a cancellation *)
    rewrite list_fmap_delete. eapply sublist_NoDup; [done|apply sublist_delete].
  - (* a deleted camp *)
    eapply sublist_NoDup; [done|]. apply fmap_sublist, sublist_filter.
Qed.

(** C3.  From a store in which every user is referenced by at most one
    selection, every sequence of requests leads to a store with the same
    property. *)
Theorem one_selection_per_user_preserved (st : Store) (rs : list Request) :
  one_selection_per_user st → one_selection_per_user (run st rs).
Proof.
  intros Hst. induction rs as [|r rs IH] using rev_ind; [done|].
  rewrite run_snoc.
  eapply transition_one_selection; [apply handle_transition | done].
Qed.

Lemma one_selection_per_user_preserved_witness :
  one_selection_per_user seeded ∧
  one_selection_per_user (run seeded busy_day).
Proof.
  assert (H : one_selection_per_user seeded) by (intros uid; simpl; lia).
  split; [exact H|].
  exact (one_selection_per_user_preserved seeded busy_day H).
Defined.

(** ** Counting the selections of a camp *)

Lemma selection_count_snoc (cid : Z) (ss : list Selection) (s : Selection) :
  selection_count cid (ss ++ [s])
  = (selection_count cid ss + if decide (campId s = cid) then 1 else 0)%nat.
Proof.
  unfold selection_count. rewrite filter_app, length_app. f_equal.
  rewrite filter_cons, filter_nil. by case_decide.
Qed.

Lemma selection_count_delete (cid : Z) (ss : list Selection) (k : nat)
    (s : Selection) :
  ss !! k = Some s →
  selection_count cid ss
  = (selection_count cid (delete k ss)
     + if decide (campId s = cid) then 1 else 0)%nat.
Proof.
  intros Hk. unfold selection_count.
  rewrite <- (take_drop_middle ss k s Hk) at 1.
  rewrite delete_take_drop, !filter_app, filter_cons, !length_app.
  case_decide; simpl; lia.
Qed.

Lemma selection_count_filter (cid cid' : Z) (ss : list Selection) :
  cid' ≠ cid →
  selection_count cid' (filter (λ s, campId s ≠ cid) ss)
  = selection_count cid' ss.
Proof.
  intros Hne. unfold selection_count.
  induction ss as [|s ss IH]; [done|].
  rewrite (filter_cons (λ s, campId s ≠ cid)).
  destruct (decide (campId s ≠ cid)) as [Hs|Hs].
  - rewrite !filter_cons. case_decide; simpl; by rewrite IH.
  - rewrite IH. rewrite filter_cons_False; [done|].
    intros Heq. apply Hs. congruence.
Qed.

Lemma selection_count_unreferenced (cid : Z) (ss : list Selection) :
  cid ∉ campId <$> ss → selection_count cid ss = 0%nat.
Proof.
  intros Hnot. unfold selection_count.
  induction ss as [|s ss IH]; [done|].
  rewrite fmap_cons, not_elem_of_cons in Hnot. destruct Hnot as [Hs Hss].
  rewrite filter_cons_False by congruence. by apply IH.
Qed.

Lemma selection_count_referenced (ss : list Selection) (s : Selection) :
  s ∈ ss → (1 ≤ selection_count (campId s) ss)%nat.
Proof.
  intros Hs. unfold selection_count.
  assert (Hin : s ∈ filter (λ s', campId s' = campId s) ss)
    by (by apply list_elem_of_filter).
  destruct (filter _ ss); [by apply elem_of_nil in Hin | simpl; lia].
Qed.

(** ** Camp ids *)

Lemma Math_max_ge (x : Z) (xs : list Z) :
  x ≤ Math_max x xs ∧ ∀ y, y ∈ xs → y ≤ Math_max x xs.
Proof.
  unfold Math_max. revert x. induction xs as [|z xs IH]; intros x; simpl.
  - split; [lia|]. intros y Hy. by apply elem_of_nil in Hy.
  - destruct (IH (Z.max x z)) as [H1 H2]. split; [lia|].
    intros y [->|Hy]%elem_of_cons; [lia|by apply H2].
Qed.

Lemma next_camp_id_fresh (cs : list Camp) :
  next_camp_id cs ∉ camp_id <$> cs.
Proof.
  unfold next_camp_id. destruct (camp_id <$> cs) as [|x xs].
  - apply not_elem_of_nil.
  - destruct (Math_max_ge x xs) as [H1 H2].
    intros [Heq|Hin]%elem_of_cons; [lia|]. specialize (H2 _ Hin). lia.
Qed.

Lemma camp_ids_alter (f : Camp → Camp) (i : nat) (cs : list Camp) :
  (∀ c, camp_id (f c) = camp_id c) →
  camp_id <$> alter f i cs = camp_id <$> cs.
Proof.
  intros Hf. rewrite (list_fmap_alter camp_id f id).
  - by apply list_alter_id.
  - apply Forall_forall. intros c _. apply Hf.
Qed.

Lemma unique_camp_index (cs : list Camp) (i j : nat) (c c' : Camp) :
  NoDup (camp_id <$> cs) →
  cs !! i = Some c → cs !! j = Some c' → camp_id c' = camp_id c → i = j.
Proof.
  intros Hnd Hi Hj Heq.
  apply (NoDup_lookup _ i j (camp_id c) Hnd); rewrite list_lookup_fmap.
  - by rewrite Hi.
  - rewrite Hj. simpl. by rewrite Heq.
Qed.

(** The camps after an in-place update at the index of camp [c]: the updated
    copy of [c], and the camps with another id, untouched. *)
Lemma elem_of_alter_camp (f : Camp → Camp) (cs : list Camp) (i : nat)
    (c c' : Camp) :
  NoDup (camp_id <$> cs) →
  cs !! i = Some c →
  c' ∈ alter f i cs →
  c' = f c ∨ (c' ∈ cs ∧ camp_id c' ≠ camp_id c).
Proof.
  intros Hnd Hi [j Hj]%list_elem_of_lookup_1.
  destruct (decide (i = j)) as [<-|Hne].
  - rewrite list_lookup_alter_eq, Hi in Hj. left. by injection Hj.
  - rewrite list_lookup_alter_ne in Hj by done. right.
    split; [by eapply list_elem_of_lookup_2|].
    intros Heq. apply Hne. by eapply unique_camp_index.
Qed.

Lemma find_camp_present (cs : list Camp) (cid : Z) :
  cid ∈ camp_id <$> cs → is_Some (find_camp cs cid).
Proof.
  intros (c & -> & Hc)%list_elem_of_fmap.
  by apply (list_find_elem_of (λ c', camp_id c' = camp_id c) cs c).
Qed.

Lemma elem_of_delete_camp (cs : list Camp) (i : nat) (c c' : Camp) :
  NoDup (camp_id <$> cs) →
  cs !! i = Some c →
  c' ∈ delete i cs ↔ c' ∈ cs ∧ camp_id c' ≠ camp_id c.
Proof.
  intros Hnd Hi. split.
  - intros [j Hj]%list_elem_of_lookup_1.
    rewrite list_lookup_delete in Hj. case_decide.
    + split; [by eapply list_elem_of_lookup_2|].
      intros Heq. assert (i = j) by (by eapply unique_camp_index). lia.
    + split; [by eapply list_elem_of_lookup_2|].
      intros Heq. assert (i = S j) by (by eapply unique_camp_index). lia.
  - intros [[j Hj]%list_elem_of_lookup_1 Hne].
    assert (j ≠ i) by (intros ->; congruence).
    destruct (decide (j < i)%nat).
    + apply (list_elem_of_lookup_2 _ j). by rewrite list_lookup_delete_lt.
    + destruct j as [|j]; [lia|].
      apply (list_elem_of_lookup_2 _ j).
      rewrite list_lookup_delete_ge by lia. done.
Qed.

(** ** The bed equation *)

Lemma transition_consistent (st st' : Store) (r : Request) :
  transition st r st' → plain_request st r → consistent st → consistent st'.
Proof.
  unfold consistent, camp_ids_unique, selections_resolve, bed_balance.
  destruct 1 as [r | u idParam now cid i c sel Hc Hs Hb Hu Hcid Hid
                 | u idParam now cid i c Hc Hb Hu
                 | u k sel Hs | u body now c Hb Hid Hbeds Horig
                 | u idParam cid i c Hc]; simpl;
    intros Hreq (Hnd & Hres & Hbal); try done.
  - (* a selection *)
    apply find_camp_Some in Hc as [Hi Hidc].
    rewrite camp_ids_alter by done. split_and!; [done| |].
    + intros s [Hs'| ->%list_elem_of_singleton]%elem_of_app; [by apply Hres|].
      rewrite Hcid, <- Hidc. apply list_elem_of_fmap.
      eauto using list_elem_of_lookup_2.
    + intros c' Hc'. rewrite selection_count_snoc.
      destruct (elem_of_alter_camp _ _ _ _ _ Hnd Hi Hc') as [-> | [Hin Hne]].
      * destruct (Hbal c) as (b & o & Hbc & Hoc & Heq);
          [by eapply list_elem_of_lookup_2|].
        exists (b - 1), o. simpl. rewrite Hbc, Hoc. simpl.
        split_and!; [done..|].
        rewrite decide_True by congruence. lia.
      * destruct (Hbal c' Hin) as (b & o & Hbc & Hoc & Heq).
        exists b, o. split_and!; [done..|].
        rewrite decide_False by congruence. lia.
  - (* a cancellation *)
    apply find_selection_Some in Hs as [Hk _].
    assert (Hsel : sel ∈ selections st) by (by eapply list_elem_of_lookup_2).
    destruct (find_camp_present _ _ (Hres sel Hsel)) as [[i c] Hc].
    rewrite Hc. apply find_camp_Some in Hc as [Hi Hidc].
    rewrite camp_ids_alter by done. split_and!; [done| |].
    + intros s Hs'. apply Hres. by eapply list_elem_of_delete_inv.
    + intros c' Hc'.
      destruct (elem_of_alter_camp _ _ _ _ _ Hnd Hi Hc') as [-> | [Hin Hne]].
      * destruct (Hbal c) as (b & o & Hbc & Hoc & Heq);
          [by eapply list_elem_of_lookup_2|].
        exists (b + 1), o. simpl. rewrite Hbc, Hoc. simpl.
        split_and!; [done..|].
        rewrite (selection_count_delete (camp_id c) _ _ _ Hk) in Heq.
        rewrite decide_True in Heq by done. lia.
      * destruct (Hbal c' Hin) as (b & o & Hbc & Hoc & Heq).
        exists b, o. split_and!; [done..|].
        rewrite (selection_count_delete (camp_id c') _ _ _ Hk) in Heq.
        rewrite decide_False in Heq by congruence. lia.
  - (* a new camp *)
    pose proof (next_camp_id_fresh (camps st)) as Hfresh.
    rewrite fmap_app. split_and!.
    + apply NoDup_app. split_and!; [done| |apply NoDup_singleton].
      intros x Hx Hx'. change (camp_id <$> [c]) with [camp_id c] in Hx'.
      apply list_elem_of_singleton in Hx'. subst x. by rewrite Hid in Hx.
    + intros s Hs'. apply elem_of_app. left. by apply Hres.
    + intros c' [Hc'| ->%list_elem_of_singleton]%elem_of_app;
        [by apply Hbal|].
      destruct Hreq as [n Hn]. exists n, n.
      rewrite Hbeds, Horig. split_and!; [done..|].
      rewrite selection_count_unreferenced; [lia|].
      rewrite Hid. intros (s & Hs1 & Hs2)%list_elem_of_fmap.
      apply Hfresh. rewrite Hs1. by apply Hres.
  - (* a deleted camp *)
    apply find_camp_Some in Hc as [Hi Hidc].
    split_and!.
    + rewrite list_fmap_delete.
      eapply sublist_NoDup; [done|apply sublist_delete].
    + intros s [Hne Hs']%list_elem_of_filter.
      destruct (proj1 (list_elem_of_fmap _ _ _) (Hres s Hs'))
        as (c' & Hc1 & Hc2).
      apply list_elem_of_fmap. exists c'. split; [done|].
      apply (elem_of_delete_camp _ _ c); [done..|].
      split; [done|]. congruence.
    + intros c' [Hin Hne]%(elem_of_delete_camp _ _ c); [|done..].
      rewrite selection_count_filter by congruence. by apply Hbal.
Qed.




Lemma seeded_consistent : consistent seeded.
Proof.
  split_and!.
  - unfold camp_ids_unique. apply (bool_decide_unpack _). by vm_compute.
  - intros s Hs. by apply elem_of_nil in Hs.
  - intros c Hc. unfold seeded, defaultCamps in Hc. simpl in Hc.
    repeat (apply elem_of_cons in Hc as [->|Hc]);
      [ .. | by apply elem_of_nil in Hc ];
      eexists _, _; split_and!; reflexivity.
Qed.




(** ** The bed bounds *)

Lemma sound_request_plain (st : Store) (r : Request) :
  sound_request st r → plain_request st r.
Proof. destruct r; simpl; try done. intros (n & -> & _). by eexists. Qed.

Lemma transition_bounds (st st' : Store) (r : Request) :
  transition st r st' → sound_request st r → consistent st →
  bed_bounds st → bed_bounds st'.
Proof.
  unfold bed_bounds.
  destruct 1 as [r | u idParam now cid i c sel Hc Hs Hb Hu Hcid Hid
                 | u idParam now cid i c Hc Hb Hu
                 | u k sel Hs | u body now c Hb Hid Hbeds Horig
                 | u idParam cid i c Hc]; simpl;
    intros Hreq (Hnd & Hres & Hbal) Hbnd; try done.
  - (* a selection: the guard left at least one bed *)
    apply find_camp_Some in Hc as [Hi Hidc]. intros c' Hc'.
    destruct (elem_of_alter_camp _ _ _ _ _ Hnd Hi Hc') as [-> | [Hin Hne]];
      [|by apply Hbnd].
    destruct (Hbnd c) as (b & o & Hbc & Hoc & Hle);
      [by eapply list_elem_of_lookup_2|].
    exists (b - 1), o. simpl. rewrite Hbc, Hoc. simpl.
    split_and!; [done..| |lia].
    rewrite Hbc in Hb. simpl in Hb. lia.
  - (* a cancellation: the cancelled selection held one of the beds *)
    apply find_selection_Some in Hs as [Hk _].
    assert (Hsel : sel ∈ selections st) by (by eapply list_elem_of_lookup_2).
    destruct (find_camp (camps st) (campId sel)) as [[i c]|] eqn:Hc;
      [|done].
    apply find_camp_Some in Hc as [Hi Hidc]. intros c' Hc'.
    destruct (elem_of_alter_camp _ _ _ _ _ Hnd Hi Hc') as [-> | [Hin Hne]];
      [|by apply Hbnd].
    destruct (Hbnd c) as (b & o & Hbc & Hoc & Hle);
      [by eapply list_elem_of_lookup_2|].
    destruct (Hbal c) as (b' & o' & Hbc' & Hoc' & Heq);
      [by eapply list_elem_of_lookup_2|].
    pose proof (selection_count_referenced _ _ Hsel) as Hcount.
    rewrite <- Hidc in Hcount.
    exists (b + 1), o. simpl. rewrite Hbc, Hoc. simpl.
    split_and!; [done..|lia|].
    assert (b' = b) by congruence. assert (o' = o) by congruence. lia.
  - (* a new camp *)
    intros c' [Hc'| ->%list_elem_of_singleton]%elem_of_app; [by apply Hbnd|].
    destruct Hreq as (n & Hn & Hpos). exists n, n.
    rewrite Hbeds, Horig. split_and!; [done..|lia|lia].
  - (* a deleted camp *)
    intros c' Hc'. apply Hbnd. by eapply list_elem_of_delete_inv.
Qed.

Lemma sound_request_users (st st' : Store) (r : Request) :
  users st' = users st → sound_request st r → sound_request st' r.
Proof. intros Hu. destruct r; simpl; unfold registered; by rewrite ?Hu. Qed.

Lemma run_bounds (st : Store) (rs : list Request) :
  consistent st → bed_bounds st → Forall (sound_request st) rs →
  consistent (run st rs) ∧ bed_bounds (run st rs).
Proof.
  intros Hst Hbnd. induction rs as [|r rs IH] using rev_ind; [done|].
  intros [Hrs [Hr _]%Forall_cons]%Forall_app. rewrite run_snoc.
  destruct (IH Hrs) as [IH1 IH2].
  assert (Hr' : sound_request (run st rs) r)
    by (eapply sound_request_users; [apply run_users | done]).
  split.
  - eapply transition_consistent;
      [apply handle_transition | by apply sound_request_plain | done].
  - eapply transition_bounds; [apply handle_transition | done..].
Qed.


Lemma seeded_bounds : bed_bounds seeded.
Proof.
  intros c Hc. unfold seeded, defaultCamps in Hc. simpl in Hc.
  repeat (apply elem_of_cons in Hc as [->|Hc]);
    [ .. | by apply elem_of_nil in Hc ];
    eexists _, _; split_and!; try reflexivity; simpl; lia.
Qed.

Lemma busy_day_sound : Forall (sound_request seeded) busy_day.
Proof.
  repeat constructor; try (vm_compute; eauto; fail).
  exists 5. split; [reflexivity | lia].
Qed.



(** ** Adding a camp *)




(** ** Selection ids *)

(** C9 fails on the code.  On the seeded database Ann and Bob select a camp
    (ids 1 and 2), Ann cancels, and Cleo selects: her selection is numbered
    by the length of the list, 2, the id of Bob's selection, which is still
    stored. *)
Theorem selection_id_reused_after_cancel :
  let rs := [ SelectCamp as_ann "1" noon; SelectCamp as_bob "1" noon;
              CancelSelection as_ann; SelectCamp as_cleo "1" noon ] in
  selection_ids_unique (run seeded (take 3 rs)) ∧
  (userId <$> selections (run seeded rs) = [2; 3]) ∧
  (sel_id <$> selections (run seeded rs) = [2; 2]) ∧
  ¬ selection_ids_unique (run seeded rs).
Proof.
  intros rs. split_and!.
  - apply (bool_decide_unpack _). by vm_compute.
  - by vm_compute.
  - by vm_compute.
  - intros H. apply (bool_decide_pack _) in H. by vm_compute in H.
Qed.

(** ** The user object of a response *)

Lemma without_password_removed (user : User) :
  password_removed user (without_password user).
Proof.
  unfold password_removed, without_password. split.
  - apply lookup_delete_eq.
  - intros k Hk. by apply lookup_delete_ne.
Qed.

Lemma strict_eq_true (a b : JsVal) : strict_eq a b = true → a = b.
Proof.
  destruct a, b; simpl; try done; by intros H%bool_decide_eq_true.
Qed.

Lemma find_user_Some (us : list User) (id : Z) (i : nat) (user : User) :
  find_user us id = Some (i, user) → user ∈ us ∧ js_get user "id" = VNum id.
Proof.
  intros (Hi & Heq & _)%list_find_Some.
  split; [by eapply list_elem_of_lookup_2 | by apply strict_eq_true].
Qed.

Lemma find_email_Some (us : list User) (email : JsVal) (i : nat)
    (user : User) :
  find_email us email = Some (i, user) →
  user ∈ us ∧ js_get user "email" = email.
Proof.
  intros (Hi & Heq & _)%list_find_Some.
  split; [by eapply list_elem_of_lookup_2 | by apply strict_eq_true].
Qed.

(** C10.  Whatever the request and whatever the hashing and signing
    functions, when the answer of [register], [login] or [verify] carries a
    user object, that object has no [password] field and agrees on every
    other field with a stored record: for [register] the record it has just
    appended to the users, for [login] the stored user with the email of the
    request, for [verify] the stored user with the caller's id.  An answer
    without a user object is an error made of a status and a message. *)
Theorem user_responses_omit_password
    (bcrypt_hash : string → string)
    (bcrypt_compare : string → string → bool)
    (jwt_sign : JsVal → JsVal → JsVal → string) (st : Store) :
  (∀ b now r,
     response_user (register bcrypt_hash jwt_sign st b now).2 = Some r →
     ∃ stored,
       users (register bcrypt_hash jwt_sign st b now).1
         = (users st ++ [stored])%list ∧
       password_removed stored r) ∧
  (∀ b r,
     response_user (login bcrypt_compare jwt_sign st b).2 = Some r →
     ∃ stored,
       (login bcrypt_compare jwt_sign st b).1 = st ∧
       stored ∈ users st ∧ js_get stored "email" = l_email b ∧
       password_removed stored r) ∧
  (∀ u r,
     response_user (verify st u).2 = Some r →
     ∃ stored,
       (verify st u).1 = st ∧
       stored ∈ users st ∧ js_get stored "id" = VNum (claim_id u) ∧
       password_removed stored r).
Proof.
  split_and!.
  - intros b now r. unfold register.
    destruct (_ || _); [done|]. destruct (negb _); [done|].
    destruct (find_email _ _); [done|].
    destruct (r_password b); try done. simpl. intros [= <-].
    eexists. split; [done|]. apply without_password_removed.
  - intros b r. unfold login.
    destruct (_ || _); [done|].
    destruct (find_email _ _) as [[i user]|] eqn:Hfind; [|done].
    apply find_email_Some in Hfind as [Hin Hemail].
    destruct (l_password b); try done.
    destruct (js_get user "password"); try done.
    destruct (bcrypt_compare _ _); [|done]. simpl. intros [= <-].
    exists user. split_and!; try done. apply without_password_removed.
  - intros u r. unfold verify.
    destruct (find_user _ _) as [[i user]|] eqn:Hfind; [|done].
    apply find_user_Some in Hfind as [Hin Hid].
    simpl. intros [= <-].
    exists user. split_and!; try done. apply without_password_removed.
Qed.

Lemma user_responses_omit_password_witness :
  let answer := (login sample_compare sample_sign seeded ann_login).2 in
  let r := without_password ann in
  response_user answer = Some r ∧
  js_get ann "password" = VStr "$2b$10$N9qo8uLOickgx2ZMRZoMye" ∧
  ∃ stored, stored ∈ users seeded ∧ password_removed stored r.
Proof.
  intros answer r.
  assert (H : response_user answer = Some r) by (vm_compute; reflexivity).
  split_and!; [exact H | reflexivity |].
  destruct (user_responses_omit_password sample_hash sample_compare
              sample_sign seeded) as (_ & Hlogin & _).
  destruct (Hlogin ann_login r H) as (stored & _ & Hin & _ & Hrm).
  exists stored. split; [exact Hin | exact Hrm].
Defined.

(** * Further properties of the server *)

(** ** What every request keeps, whoever sends it *)

Lemma run_preserves (P : Store → Prop) (st : Store) (rs : list Request) :
  (∀ s s' r, transition s r s' → P s → P s') → P st → P (run st rs).
Proof.
  intros Hstep Hst. induction rs as [|r rs IH] using rev_ind; [done|].
  rewrite run_snoc. eapply Hstep; [apply handle_transition | done].
Qed.

Lemma transition_camp_ids (st st' : Store) (r : Request) :
  transition st r st' → camp_ids_unique st → camp_ids_unique st'.
Proof.
  unfold camp_ids_unique.
  destruct 1 as [r | u idParam now cid i c sel Hc Hs Hb Hu Hcid Hid
                 | u idParam now cid i c Hc Hb Hu
                 | u k sel Hs | u body now c Hb Hid Hbeds Horig
                 | u idParam cid i c Hc]; simpl; intros Hnd; try done.
  - by rewrite camp_ids_alter.
  - by rewrite camp_ids_alter.
  - destruct (find_camp (camps st) (campId sel)) as [[i c]|]; [|done].
    by rewrite camp_ids_alter.
  - rewrite fmap_app. apply NoDup_app.
    split_and!; [done| |apply NoDup_singleton].
    intros x Hx Hx'. change (camp_id <$> [c]) with [camp_id c] in Hx'.
    apply list_elem_of_singleton in Hx'. subst x. rewrite Hid in Hx.
    by apply next_camp_id_fresh in Hx.
  - rewrite list_fmap_delete. eapply sublist_NoDup; [done|apply sublist_delete].
Qed.

(** Camp ids stay unique.  From a store in which no two camps share an id,
    every sequence of requests, whatever the callers and the inputs, leads to
    a store in which no two camps share an id: a new camp is numbered above
    every stored id, and no other handler changes an id. *)
Theorem camp_ids_unique_preserved (st : Store) (rs : list Request) :
  camp_ids_unique st → camp_ids_unique (run st rs).
Proof. apply run_preserves. apply transition_camp_ids. Qed.

Lemma camp_ids_unique_preserved_witness :
  camp_ids_unique stranded ∧
  camp_ids_unique (run stranded (AddCamp as_vic tent_body noon :: busy_day)).
Proof.
  assert (H : camp_ids_unique stranded) by (vm_compute; constructor).
  split; [exact H|]. exact (camp_ids_unique_preserved stranded _ H).
Defined.

Lemma elem_of_delete_other (cs : list Camp) (i : nat) (c c' : Camp) :
  cs !! i = Some c → c' ∈ cs → camp_id c' ≠ camp_id c → c' ∈ delete i cs.
Proof.
  intros Hi [j Hj]%list_elem_of_lookup_1 Hne.
  assert (j ≠ i) by (intros ->; congruence).
  destruct (decide (j < i)%nat).
  - apply (list_elem_of_lookup_2 _ j). by rewrite list_lookup_delete_lt.
  - destruct j as [|j]; [lia|].
    apply (list_elem_of_lookup_2 _ j).
    rewrite list_lookup_delete_ge by lia. done.
Qed.

Lemma transition_resolve (st st' : Store) (r : Request) :
  transition st r st' → selections_resolve st → selections_resolve st'.
Proof.
  unfold selections_resolve.
  destruct 1 as [r | u idParam now cid i c sel Hc Hs Hb Hu Hcid Hid
                 | u idParam now cid i c Hc Hb Hu
                 | u k sel Hs | u body now c Hb Hid Hbeds Horig
                 | u idParam cid i c Hc]; simpl; intros Hres; try done.
  - rewrite camp_ids_alter by done. apply find_camp_Some in Hc as [Hi Hidc].
    intros s [Hs'| ->%list_elem_of_singleton]%elem_of_app; [by apply Hres|].
    rewrite Hcid, <- Hidc. apply list_elem_of_fmap.
    eauto using list_elem_of_lookup_2.
  - by rewrite camp_ids_alter.
  - intros s Hs'. apply list_elem_of_delete_inv in Hs'.
    destruct (find_camp (camps st) (campId sel)) as [[i c]|];
      [rewrite camp_ids_alter by done|]; by apply Hres.
  - intros s Hs'. rewrite fmap_app. apply elem_of_app. left. by apply Hres.
  - apply find_camp_Some in Hc as [Hi Hidc].
    intros s [Hne Hs']%list_elem_of_filter.
    destruct (proj1 (list_elem_of_fmap _ _ _) (Hres s Hs'))
      as (c' & Hc1 & Hc2).
    apply list_elem_of_fmap. exists c'. split; [done|].
    apply (elem_of_delete_other _ _ c); [done..|]. congruence.
Qed.

(** No selection is left pointing at a missing camp.  From a store in which
    every selection references a stored camp, every sequence of requests,
    whatever the callers and the inputs, leads to such a store: selecting
    needs the camp, and deleting a camp removes the selections with its
    id. *)
Theorem selections_resolve_preserved (st : Store) (rs : list Request) :
  selections_resolve st → selections_resolve (run st rs).
Proof. apply run_preserves. apply transition_resolve. Qed.

Lemma selections_resolve_preserved_witness :
  selections_resolve seeded ∧ selections_resolve (run seeded busy_day).
Proof.
  assert (H : selections_resolve seeded)
    by (intros s Hs; by apply elem_of_nil in Hs).
  split; [exact H|]. exact (selections_resolve_preserved seeded busy_day H).
Defined.

(** What a request does to the camps: nothing, one bed count down or up, one
    volunteer's camp appended, or one camp that is not a default camp
    removed. *)
Lemma camps_effect (st : Store) (r : Request) :
  camps (handle st r).1 = camps st ∨
  (∃ i, camps (handle st r).1 = alter beds_dec i (camps st)) ∨
  (∃ i, camps (handle st r).1 = alter beds_inc i (camps st)) ∨
  (∃ c, camp_type c = "volunteer-added" ∧
        camps (handle st r).1 = (camps st ++ [c])%list) ∨
  (∃ i c, camps st !! i = Some c ∧ camp_type c ≠ "default" ∧
          camps (handle st r).1 = delete i (camps st)).
Proof.
  destruct r as [u idParam now | u | u body now | u idParam]; simpl.
  - select_cases st u idParam; eauto.
  - unfold cancel_selection.
    destruct (find_selection _ _) as [[k sel]|]; simpl; [|by left].
    destruct (find_camp _ _) as [[i c]|]; eauto.
  - unfold add_camp.
    destruct (negb _); [by left|].
    destruct (_ || _); [by left|].
    destruct (camp_resources _); [|by left].
    destruct (find_user _ _) as [[j v]|]; [|by left].
    simpl. right. right. right. left. eexists. split; [|reflexivity]. done.
  - unfold delete_camp.
    destruct (negb _); [by left|].
    destruct (parseInt_str idParam) as [cid|]; [|by left].
    destruct (find_camp (camps st) cid) as [[i c]|] eqn:Hc; [|by left].
    destruct (String.eqb (camp_type c) "default") eqn:Hty; [by left|].
    apply String.eqb_neq in Hty. apply find_camp_Some in Hc as [Hi _].
    simpl. do 4 right. by exists i, c.
Qed.

Lemma filter_alter_camps (P : Camp → Prop) `{!∀ c, Decision (P c)}
    (f : Camp → Camp) (i : nat) (cs : list Camp) :
  (∀ c, P (f c) ↔ P c) → (∀ c, camp_id (f c) = camp_id c) →
  camp_id <$> filter P (alter f i cs) = camp_id <$> filter P cs.
Proof.
  intros HP Hid. revert i. induction cs as [|c cs IH]; intros i; [done|].
  destruct i as [|i].
  - change (alter f 0%nat (c :: cs)) with (f c :: cs).
    rewrite !filter_cons.
    destruct (decide (P (f c))) as [H1|H1], (decide (P c)) as [H2|H2];
      rewrite ?fmap_cons, ?Hid; try done.
    + exfalso. apply H2. by apply HP.
    + exfalso. apply H1. by apply HP.
  - change (alter f (S i) (c :: cs)) with (c :: alter f i cs).
    rewrite !filter_cons. case_decide; rewrite ?fmap_cons, IH; done.
Qed.

Lemma filter_delete_other (P : Camp → Prop) `{!∀ c, Decision (P c)}
    (i : nat) (cs : list Camp) (c : Camp) :
  cs !! i = Some c → ¬ P c → filter P (delete i cs) = filter P cs.
Proof.
  intros Hi Hc. rewrite <- (take_drop_middle cs i c Hi) at 2.
  rewrite delete_take_drop, !filter_app. f_equal.
  by rewrite filter_cons_False.
Qed.

(** Default camps stay.  Whatever the requests, the callers and the inputs,
    the default camps of the store are the same afterwards, by id and in the
    same order: none is removed and none is added. *)
Theorem default_camps_kept (st : Store) (rs : list Request) :
  default_camp_ids (run st rs) = default_camp_ids st.
Proof.
  induction rs as [|r rs IH] using rev_ind; [done|].
  rewrite run_snoc, <- IH. unfold default_camp_ids.
  destruct (camps_effect (run st rs) r)
    as [-> | [[i ->] | [[i ->] | [(c & Hty & ->) | (i & c & Hi & Hty & ->)]]]].
  - done.
  - by apply filter_alter_camps.
  - by apply filter_alter_camps.
  - rewrite filter_app, filter_cons_False, filter_nil, app_nil_r; [done|].
    rewrite Hty. discriminate.
  - by rewrite (filter_delete_other _ _ _ c).
Qed.

Lemma camp_static_alter (f : Camp → Camp) (i : nat) (cs : list Camp) :
  (∀ c, camp_static (f c) = camp_static c) →
  camp_static <$> alter f i cs = camp_static <$> cs.
Proof.
  intros Hf. rewrite (list_fmap_alter camp_static f id).
  - by apply list_alter_id.
  - apply Forall_forall. intros c _. apply Hf.
Qed.

(** Only the current bed count moves.  Selecting and cancelling leave every
    camp as it was but for its current bed count (original count, name, type
    and the rest are untouched, and no camp appears or disappears); adding a
    camp leaves the stored camps in place in front of the new one; deleting
    leaves a sub-list of the stored camps, records unchanged. *)
Theorem camp_records_kept (st : Store) (r : Request) :
  match r with
  | SelectCamp _ _ _ | CancelSelection _ =>
      camp_static <$> camps (handle st r).1 = camp_static <$> camps st
  | AddCamp _ _ _ => camps st `prefix_of` camps (handle st r).1
  | DeleteCamp _ _ => camps (handle st r).1 `sublist_of` camps st
  end.
Proof.
  pose proof (handle_transition st r) as Ht.
  destruct Ht as [r | u idParam now cid i c sel Hc Hs Hb Hu Hcid Hid
                 | u idParam now cid i c Hc Hb Hu
                 | u k sel Hs | u body now c Hb Hid Hbeds Horig
                 | u idParam cid i c Hc]; simpl.
  - destruct r; simpl; done.
  - by apply camp_static_alter.
  - by apply camp_static_alter.
  - destruct (find_camp _ _) as [[i c]|]; [|done]. by apply camp_static_alter.
  - by apply prefix_app_r.
  - apply sublist_delete.
Qed.

(** No camp is overbooked.  From a store with unique camp ids, no dangling
    selection, the bed equation and the bed bounds, after any sequence of
    requests whose selecting callers are stored users and whose new bed
    counts are non-negative integers, the selections that reference a camp
    never outnumber its original beds. *)
Theorem no_camp_overbooked (st : Store) (rs : list Request) :
  consistent st → bed_bounds st → Forall (sound_request st) rs →
  ∀ c, c ∈ camps (run st rs) →
    ∃ o, originalBeds c = Some o ∧
         Z.of_nat (selection_count (camp_id c) (selections (run st rs))) ≤ o.
Proof.
  intros Hst Hbnd Hrs c Hc.
  destruct (run_bounds st rs Hst Hbnd Hrs) as [(_ & _ & Hbal) Hbnd'].
  destruct (Hbal c Hc) as (b & o & Hb & Ho & Heq).
  destruct (Hbnd' c Hc) as (b' & o' & Hb' & Ho' & Hle).
  exists o. split; [done|].
  assert (b' = b) by congruence. lia.
Qed.

Lemma no_camp_overbooked_witness :
  consistent seeded ∧ bed_bounds seeded ∧
  Forall (sound_request seeded) busy_day ∧
  ∀ c, c ∈ camps (run seeded busy_day) →
    ∃ o, originalBeds c = Some o ∧
         Z.of_nat (selection_count (camp_id c)
                     (selections (run seeded busy_day))) ≤ o.
Proof.
  split_and!;
    [exact seeded_consistent | exact seeded_bounds | exact busy_day_sound |].
  exact (no_camp_overbooked seeded busy_day seeded_consistent seeded_bounds
                            busy_day_sound).
Defined.

(** ** How requests compose *)

(** The last bed.  When a selection succeeds on a camp that had one bed left,
    no later selection of that camp succeeds, whoever asks: the store stays
    as it is, and a refugee without a selection is told the camp is full. *)
Theorem last_bed_taken (st st1 : Store) (u : Claims) (idParam now : string)
    (sel : Selection) (pos : nat) (camp : Camp) :
  select_camp st u idParam now = (st1, CampSelected sel) →
  route_camp (camps st) idParam = Some (pos, camp) → beds camp = Some 1 →
  ∀ u' now',
    (select_camp st1 u' idParam now').1 = st1 ∧
    (∀ sel', (select_camp st1 u' idParam now').2 ≠ CampSelected sel') ∧
    (claim_role u' = "refugee" →
     find_selection (selections st1) (claim_id u') = None →
     (select_camp st1 u' idParam now').2 = Err 400 "This camp is full").
Proof.
  intros Hsel Hroute Hone u' now'. revert Hsel Hroute.
  select_cases st u idParam; intros [= <- <-] [= <- <-].
  unfold select_camp. simpl.
  rewrite find_camp_alter by done. rewrite Hcamp. simpl.
  destruct (decide (i = i)) as [_|?]; [|done].
  assert (Hfull : beds_le0 (beds (beds_dec c)) = true)
    by (simpl; by rewrite Hone).
  rewrite Hfull.
  destruct (String.eqb (claim_role u') "refugee") eqn:Hrole'; simpl.
  - by destruct (find_selection _ (claim_id u')) as [[k' s']|].
  - apply String.eqb_neq in Hrole'. done.
Qed.

Lemma last_bed_taken_witness :
  let st1 := (select_camp one_bed as_ann "7" noon).1 in
  (∃ sel, select_camp one_bed as_ann "7" noon = (st1, CampSelected sel)) ∧
  select_camp st1 as_bob "7" noon = (st1, Err 400 "This camp is full").
Proof.
  intros st1.
  assert (H : select_camp one_bed as_ann "7" noon
              = (st1, CampSelected
                        (mkSelection 1 1 (VStr "ann@example.org") (VStr "Ann")
                                     7 (VStr "Parish Hall") noon)))
    by (vm_compute; reflexivity).
  split; [eexists; exact H|].
  destruct (last_bed_taken one_bed st1 as_ann "7" noon _ 0%nat
              (mkCamp 7 (VStr "Parish Hall") (Some 1) (Some 1) ["Water"]
                      (VStr "") (VStr "No") "volunteer-added" (VStr "Vic")
                      noon) H) with (u' := as_bob) (now' := noon)
    as (Hst & _ & Hfull); [vm_compute; reflexivity | reflexivity |].
  rewrite (surjective_pairing (select_camp st1 as_bob "7" noon)).
  rewrite Hst, Hfull; [reflexivity | reflexivity | vm_compute; reflexivity].
Defined.

(** One selection at a time.  After a selection has succeeded, every further
    selection by the same caller, for whatever camp, is refused and changes
    nothing; it is answered Conflict whenever the camp it names exists. *)
Theorem second_selection_refused (st st1 : Store) (u : Claims)
    (idParam now : string) (sel : Selection) :
  select_camp st u idParam now = (st1, CampSelected sel) →
  ∀ idParam' now',
    (select_camp st1 u idParam' now').1 = st1 ∧
    (∀ sel', (select_camp st1 u idParam' now').2 ≠ CampSelected sel') ∧
    (is_Some (route_camp (camps st1) idParam') →
     (select_camp st1 u idParam' now').2
       = Err 400 "You already have a camp selected").
Proof.
  intros Hsel idParam' now'. revert Hsel.
  select_cases st u idParam; intros [= <- <-]. simpl.
  unfold find_selection in *. rewrite list_find_app_r by done. simpl.
  destruct (decide (claim_id u = claim_id u)) as [_|?]; [simpl|done].
  destruct (parseInt_str idParam') as [cid'|]; simpl;
    [|split_and!; try done; by intros [? [=]]].
  destruct (find_camp _ cid') as [[i' c']|]; simpl;
    [done | split_and!; try done; by intros [? [=]]].
Qed.

Lemma second_selection_refused_witness :
  (∃ sel, select_camp seeded as_ann "2" noon
          = (ann_in_hall, CampSelected sel)) ∧
  select_camp ann_in_hall as_ann "3" noon
    = (ann_in_hall, Err 400 "You already have a camp selected").
Proof.
  assert (H : select_camp seeded as_ann "2" noon
              = (ann_in_hall,
                 CampSelected
                   (mkSelection 1 1 (VStr "ann@example.org") (VStr "Ann") 2
                                (VStr "Community Hall") noon)))
    by (vm_compute; reflexivity).
  split; [eexists; exact H|].
  destruct (second_selection_refused seeded ann_in_hall as_ann "2" noon _ H
              "3" noon) as (Hst & _ & Hconf).
  rewrite (surjective_pairing (select_camp ann_in_hall as_ann "3" noon)).
  rewrite Hst, Hconf; [reflexivity | vm_compute; eauto].
Defined.

(** Reading one's selection.  After a selection has succeeded,
    [GET /api/selections/my] answers the caller that very selection. *)
Theorem my_selection_after_select (st st1 : Store) (u : Claims)
    (idParam now : string) (sel : Selection) :
  select_camp st u idParam now = (st1, CampSelected sel) →
  my_selection st1 u = MySelection sel.
Proof.
  select_cases st u idParam; intros [= <- <-].
  unfold my_selection, find_selection in *. simpl.
  rewrite list_find_app_r by done. simpl.
  by destruct (decide (claim_id u = claim_id u)) as [_|?].
Qed.

Lemma my_selection_after_select_witness :
  let sel := mkSelection 1 1 (VStr "ann@example.org") (VStr "Ann") 2
                         (VStr "Community Hall") noon in
  select_camp seeded as_ann "2" noon = (ann_in_hall, CampSelected sel) ∧
  my_selection ann_in_hall as_ann = MySelection sel.
Proof.
  intros sel.
  assert (H : select_camp seeded as_ann "2" noon
              = (ann_in_hall, CampSelected sel))
    by (vm_compute; reflexivity).
  split; [exact H|].
  exact (my_selection_after_select seeded ann_in_hall as_ann "2" noon sel H).
Defined.

Lemma no_selection_after_delete (ss : list Selection) (k : nat)
    (s : Selection) :
  NoDup (userId <$> ss) → ss !! k = Some s →
  find_selection (delete k ss) (userId s) = None.
Proof.
  intros Hnd Hk. apply find_selection_None.
  rewrite <- (take_drop_middle ss k s Hk), fmap_app, fmap_cons in Hnd.
  apply NoDup_app in Hnd as (_ & Hl & [Hr _]%NoDup_cons).
  rewrite delete_take_drop, fmap_app. intros [Hin|Hin]%elem_of_app.
  - apply (Hl _ Hin). constructor.
  - by apply Hr.
Qed.

(** Cancelling once is enough.  In a store with at most one selection per
    user, after a cancellation has succeeded the caller has no selection
    left: reading it is answered NotFound, and cancelling again is answered
    NotFound and changes nothing. *)
Theorem cancel_leaves_no_selection (st st1 : Store) (u : Claims) :
  one_selection_per_user st →
  cancel_selection st u = (st1, SelectionCancelled) →
  my_selection st1 u = Engine (Err 404 "No selection found") ∧
  cancel_selection st1 u = (st1, Err 404 "No selection found").
Proof.
  intros Hone%one_selection_NoDup. unfold cancel_selection.
  destruct (find_selection (selections st) (claim_id u)) as [[k sel]|] eqn:Hs;
    [|done].
  intros [= <-]. apply find_selection_Some in Hs as [Hk Hu].
  pose proof (no_selection_after_delete _ _ _ Hone Hk) as Hnone.
  rewrite Hu in Hnone.
  unfold my_selection. simpl. by rewrite Hnone.
Qed.

Lemma cancel_leaves_no_selection_witness :
  one_selection_per_user ann_in_hall ∧
  cancel_selection ann_in_hall as_ann = (seeded, SelectionCancelled) ∧
  cancel_selection seeded as_ann = (seeded, Err 404 "No selection found").
Proof.
  assert (H1 : one_selection_per_user ann_in_hall).
  { unfold one_selection_per_user. apply one_selection_NoDup.
    vm_compute. apply NoDup_singleton. }
  assert (H2 : cancel_selection ann_in_hall as_ann
               = (seeded, SelectionCancelled)) by (vm_compute; reflexivity).
  split_and!; [exact H1 | exact H2 |].
  exact (proj2 (cancel_leaves_no_selection ann_in_hall seeded as_ann H1 H2)).
Defined.

(** A deleted camp is gone.  In a store with unique camp ids, after a camp
    has been deleted its route parameter names no camp, no selection
    references its id, and a refugee who selects it is answered NotFound. *)
Theorem deleted_camp_is_gone (st st1 : Store) (u : Claims)
    (idParam : string) :
  camp_ids_unique st →
  delete_camp st u idParam = (st1, CampDeleted) →
  route_camp (camps st1) idParam = None ∧
  (∀ cid, parseInt_str idParam = Some cid →
          selection_count cid (selections st1) = 0%nat) ∧
  (∀ u' now', claim_role u' = "refugee" →
     select_camp st1 u' idParam now' = (st1, Err 404 "Camp not found")).
Proof.
  intros Hnd. unfold delete_camp, route_camp, select_camp.
  destruct (negb _); [done|].
  destruct (parseInt_str idParam) as [cid|]; [simpl|done].
  destruct (find_camp (camps st) cid) as [[i c]|] eqn:Hc; [|done].
  destruct (String.eqb (camp_type c) "default"); [done|].
  intros [= <-]. simpl. apply find_camp_Some in Hc as [Hi Hid].
  assert (Hgone : find_camp (delete i (camps st)) cid = None).
  { apply list_find_None, Forall_forall. intros c' Hc'.
    apply (elem_of_delete_camp _ _ c) in Hc' as [_ Hne]; [|done..].
    congruence. }
  rewrite Hgone. split_and!; [done| |].
  - intros cid' [= <-]. apply selection_count_unreferenced.
    intros (s & Hs1 & [Hs2 _]%list_elem_of_filter)%list_elem_of_fmap.
    by apply Hs2.
  - intros u' now' ->. done.
Qed.

Lemma deleted_camp_is_gone_witness :
  camp_ids_unique with_tent ∧
  delete_camp with_tent as_vic "4" = (seeded, CampDeleted) ∧
  select_camp seeded as_ann "4" noon = (seeded, Err 404 "Camp not found").
Proof.
  assert (H1 : camp_ids_unique with_tent).
  { unfold camp_ids_unique. apply (bool_decide_unpack _). by vm_compute. }
  assert (H2 : delete_camp with_tent as_vic "4" = (seeded, CampDeleted))
    by (vm_compute; reflexivity).
  split_and!; [exact H1 | exact H2 |].
  destruct (deleted_camp_is_gone with_tent seeded as_vic "4" H1 H2)
    as (_ & _ & H404).
  exact (H404 as_ann noon eq_refl).
Defined.

(** ** Ids *)

Lemma numbered_ids_unique (st : Store) :
  selections_numbered st → selection_ids_unique st.
Proof.
  intros Hnum. unfold selection_ids_unique. apply NoDup_alt.
  intros i j x Hi Hj. rewrite list_lookup_fmap in Hi, Hj.
  destruct (selections st !! i) as [si|] eqn:Hsi; [|done].
  destruct (selections st !! j) as [sj|] eqn:Hsj; [|done].
  simpl in Hi, Hj. apply Hnum in Hsi, Hsj.
  assert (Z.of_nat i + 1 = Z.of_nat j + 1) by congruence. lia.
Qed.

Lemma transition_numbered (st st' : Store) (r : Request) :
  transition st r st' → adds_only r →
  selections_numbered st → selections_numbered st'.
Proof.
  unfold selections_numbered.
  destruct 1 as [r | u idParam now cid i c sel Hc Hs Hb Hu Hcid Hid
                 | u idParam now cid i c Hc Hb Hu
                 | u k sel Hs | u body now c Hb Hid Hbeds Horig
                 | u idParam cid i c Hc]; simpl; intros Hadd Hnum; try done.
  intros n s [Hn | [Hlen Hn]]%lookup_app_Some; [by apply Hnum|].
  destruct (n - length (selections st))%nat as [|m] eqn:Hm; [|done].
  simpl in Hn. injection Hn as <-. rewrite Hid. f_equal. lia.
Qed.

(** Selection ids without removals.  From a store whose selections are
    numbered 1, 2, ... in order, every sequence of SelectCamp and AddCamp
    requests leads to a store whose selections are numbered in order, so no
    two of them share an id. *)
Theorem selection_ids_unique_without_removal (st : Store)
    (rs : list Request) :
  selections_numbered st → Forall adds_only rs →
  selections_numbered (run st rs) ∧ selection_ids_unique (run st rs).
Proof.
  intros Hst Hrs.
  assert (Hnum : selections_numbered (run st rs)).
  { induction rs as [|r rs IH] using rev_ind; [done|].
    apply Forall_app in Hrs as [Hrs [Hr _]%Forall_cons].
    rewrite run_snoc.
    eapply transition_numbered; [apply handle_transition | done | by apply IH]. }
  split; [done | by apply numbered_ids_unique].
Qed.

Lemma selection_ids_unique_without_removal_witness :
  let rs := [ SelectCamp as_ann "1" noon; AddCamp as_vic tent_body noon;
              SelectCamp as_bob "4" noon; SelectCamp as_cleo "1" noon ] in
  selections_numbered seeded ∧ Forall adds_only rs ∧
  (sel_id <$> selections (run seeded rs)) = [1; 2; 3] ∧
  selection_ids_unique (run seeded rs).
Proof.
  intros rs.
  assert (H1 : selections_numbered seeded) by (intros i s Hi; done).
  assert (H2 : Forall adds_only rs) by (repeat constructor).
  split_and!; [exact H1 | exact H2 | by vm_compute |].
  exact (proj2 (selection_ids_unique_without_removal seeded rs H1 H2)).
Defined.

(** A new camp is numbered above all.  When a camp is added, its id is
    larger than the id of every stored camp (1 when there is none), and the
    camp is stored behind them. *)
Theorem new_camp_id_above_all (st : Store) (u : Claims) (body : CampBody)
    (now : string) (c : Camp) :
  (add_camp st u body now).2 = CampAdded c →
  camps (add_camp st u body now).1 = (camps st ++ [c])%list ∧
  (∀ c', c' ∈ camps st → camp_id c' < camp_id c) ∧
  (camps st = [] → camp_id c = 1).
Proof.
  unfold add_camp.
  destruct (negb _); [done|]. destruct (_ || _); [done|].
  destruct (camp_resources _); [|done].
  destruct (find_user _ _) as [[j v]|]; [|done].
  simpl. intros [= <-]. simpl. split_and!; [done| |by intros ->].
  intros c' Hc'. unfold next_camp_id.
  assert (Hin : camp_id c' ∈ camp_id <$> camps st)
    by (apply list_elem_of_fmap; eauto).
  destruct (camp_id <$> camps st) as [|x xs]; [by apply elem_of_nil in Hin|].
  destruct (Math_max_ge x xs) as [H1 H2].
  apply elem_of_cons in Hin as [->|Hin]; [lia|]. specialize (H2 _ Hin). lia.
Qed.

Lemma new_camp_id_above_all_witness :
  ∃ c, (add_camp seeded as_vic tent_body noon).2 = CampAdded c ∧
       camp_id c = 4 ∧ ∀ c', c' ∈ camps seeded → camp_id c' < camp_id c.
Proof.
  eexists. assert (H : (add_camp seeded as_vic tent_body noon).2
      = CampAdded (mkCamp 4 (VStr "Tent City") (Some 5) (Some 5)
                          ["Water"; "Food"] (VStr "") (VStr "No")
                          "volunteer-added" (VStr "Vic") noon))
    by (vm_compute; reflexivity).
  split_and!; [exact H | reflexivity |].
  exact (proj1 (proj2 (new_camp_id_above_all seeded as_vic tent_body noon _ H))).
Defined.

(** ** The token check *)

Lemma lacks_cons (sep x : ascii) (s : string) :
  lacks sep (String x s) ↔ x ≠ sep ∧ lacks sep s.
Proof.
  unfold lacks. simpl. rewrite not_elem_of_cons.
  split; intros [H1 H2]; (split; [congruence | done]).
Qed.

Lemma split_on_lacks (sep : ascii) (s : string) :
  lacks sep s → split_on sep s = [s].
Proof.
  induction s as [|x s IH]; [done|].
  intros [Hx Hs]%lacks_cons. simpl.
  destruct (Ascii.eqb_spec x sep) as [->|_]; [done|]. by rewrite IH.
Qed.

Lemma split_on_first (sep : ascii) (a b : string) :
  lacks sep a → split_on sep (a +:+ String sep b) = a :: split_on sep b.
Proof.
  induction a as [|x a IH]; simpl.
  - intros _. by rewrite Ascii.eqb_refl.
  - intros [Hx Ha]%lacks_cons.
    destruct (Ascii.eqb_spec x sep) as [->|_]; [done|]. by rewrite IH.
Qed.

(** The scheme word is not read.  For a header made of any word without a
    space, one space, and a non-empty token without a space, the middleware
    hands exactly that token to the verifier: the request goes on with the
    verified claim, or is answered 403 when the verifier refuses.  [Bearer]
    is not required. *)
Theorem token_is_second_word
    (jwt_verify : string → string → option Claims)
    (now scheme token : string) :
  lacks " " scheme → lacks " " token → token ≠ "" →
  header_token (Some (scheme +:+ " " +:+ token)) = Some token ∧
  authenticateToken jwt_verify now (Some (scheme +:+ " " +:+ token))
  = match jwt_verify now token with
    | Some user => inr user
    | None => inl (Err 403 "Invalid or expired token")
    end.
Proof.
  intros Hs Ht Hne.
  assert (Htok : header_token (Some (scheme +:+ " " +:+ token)) = Some token).
  { unfold header_token.
    change (scheme +:+ " " +:+ token)
      with (scheme +:+ String " "%char token).
    destruct (String.eqb_spec (scheme +:+ String " "%char token) "")
      as [Heq|_]; [by destruct scheme|].
    by rewrite split_on_first, split_on_lacks. }
  split; [done|]. unfold authenticateToken. rewrite Htok.
  by destruct (String.eqb_spec token "").
Qed.

Lemma token_is_second_word_witness :
  lacks " " "Bearer" ∧ lacks " " "token-for-ann@example.org" ∧
  authenticateToken sample_verify noon (bearer "token-for-ann@example.org")
  = inr as_ann ∧
  authenticateToken sample_verify noon (Some "Basic token-for-ann@example.org")
  = inr as_ann.
Proof.
  assert (H1 : lacks " " "Bearer")
    by (apply (bool_decide_unpack _); by vm_compute).
  assert (H1' : lacks " " "Basic")
    by (apply (bool_decide_unpack _); by vm_compute).
  assert (H2 : lacks " " "token-for-ann@example.org")
    by (apply (bool_decide_unpack _); by vm_compute).
  split_and!; [exact H1 | exact H2 | |].
  - exact (proj2 (token_is_second_word sample_verify noon "Bearer"
                    "token-for-ann@example.org" H1 H2 ltac:(discriminate))).
  - exact (proj2 (token_is_second_word sample_verify noon "Basic"
                    "token-for-ann@example.org" H1' H2 ltac:(discriminate))).
Defined.

(** No token, no entry.  A request without an [authorization] header, or
    with a header that has no space in it, is answered 401 whatever the
    verifier would say: a bare token, even a valid one, is refused. *)
Theorem bare_header_refused
    (jwt_verify : string → string → option Claims)
    (now : string) (authHeader : option string) :
  (∀ h, authHeader = Some h → lacks " " h) →
  authenticateToken jwt_verify now authHeader
  = inl (Err 401 "Access token required").
Proof.
  intros Hbare. unfold authenticateToken, header_token.
  destruct authHeader as [h|]; [|done].
  destruct (String.eqb_spec h "") as [->|_]; [done|].
  by rewrite split_on_lacks by (by apply Hbare).
Qed.

Lemma bare_header_refused_witness :
  sample_verify noon "token-for-ann@example.org" = Some as_ann ∧
  authenticateToken sample_verify noon (Some "token-for-ann@example.org")
  = inl (Err 401 "Access token required").
Proof.
  split; [reflexivity|].
  apply bare_header_refused. intros h [= <-].
  apply (bool_decide_unpack _). by vm_compute.
Defined.

(** ** Registration and login *)

Lemma strict_eq_refl (a : JsVal) : truthy a = true → strict_eq a a = true.
Proof. destruct a; simpl; try done; intros _; by apply bool_decide_eq_true. Qed.

Lemma find_email_None (us : list User) (email : JsVal) :
  truthy email = true →
  find_email us email = None ↔ email ∉ (λ u, js_get u "email") <$> us.
Proof.
  intros Ht. unfold find_email.
  rewrite list_find_None, Forall_forall, list_elem_of_fmap. split.
  - intros H (u & -> & Hu). apply (H u Hu). by apply strict_eq_refl.
  - intros H u Hu Heq. apply H. exists u. split; [|done].
    symmetry. by apply strict_eq_true.
Qed.

(** What a successful registration has checked, stored and answered. *)
Lemma register_success
    (bcrypt_hash : string → string)
    (jwt_sign : JsVal → JsVal → JsVal → string)
    (st st1 : Store) (b : RegisterBody) (now : string)
    (status : Z) (message : string) (user : User) (token : string) :
  register bcrypt_hash jwt_sign st b now
    = (st1, AuthOk status message user token) →
  ∃ password newUser,
    r_password b = VStr password ∧
    truthy (r_name b) = true ∧ truthy (r_email b) = true ∧
    truthy (r_password b) = true ∧
    (r_role b = VStr "volunteer" ∨ r_role b = VStr "refugee") ∧
    find_email (users st) (r_email b) = None ∧
    st1 = mkStore (users st ++ [newUser]) (camps st) (selections st) ∧
    js_get newUser "id" = VNum (Z.of_nat (length (users st)) + 1) ∧
    js_get newUser "name" = r_name b ∧
    js_get newUser "email" = r_email b ∧
    js_get newUser "role" = r_role b ∧
    js_get newUser "password" = VStr (bcrypt_hash password) ∧
    status = 201 ∧ message = "User registered successfully" ∧
    user = without_password newUser ∧
    token = jwt_sign (VNum (Z.of_nat (length (users st)) + 1))
                     (r_email b) (r_role b).
Proof.
  unfold register.
  destruct (truthy (r_name b)) eqn:Hn; [|done].
  destruct (truthy (r_email b)) eqn:He; [|done].
  destruct (truthy (r_password b)) eqn:Hp; [|done].
  destruct (truthy (r_role b)) eqn:Hr; [simpl|done].
  destruct (strict_eq (r_role b) (VStr "volunteer")) eqn:Hv; simpl.
  - destruct (find_email _ _); [done|].
    destruct (r_password b) as [| | | | |password]; try done.
    apply strict_eq_true in Hv. intros [= <- <- <- <- <-].
    eexists _, _. split_and!; try done; try by left.
    all: unfold role_fields, js_get; rewrite Hv; simpl;
      by repeat (rewrite lookup_insert_ne by done); rewrite ?lookup_insert_eq.
  - destruct (strict_eq (r_role b) (VStr "refugee")) eqn:Hf; [simpl|done].
    destruct (find_email _ _); [done|].
    destruct (r_password b) as [| | | | |password]; try done.
    apply strict_eq_true in Hf. intros [= <- <- <- <- <-].
    eexists _, _. split_and!; try done; try by right.
    all: unfold role_fields, js_get; rewrite Hf; simpl;
      by repeat (rewrite lookup_insert_ne by done); rewrite ?lookup_insert_eq.
Qed.

(** Registration fails without a trace.  Whatever the request, registration
    leaves camps and selections alone; it answers an error exactly when a
    required field is falsy, the role is neither [volunteer] nor [refugee],
    the email is already stored, or the password is no text, and then the
    users are unchanged too; otherwise it appends one user. *)
Theorem register_outcome
    (bcrypt_hash : string → string)
    (jwt_sign : JsVal → JsVal → JsVal → string)
    (st : Store) (b : RegisterBody) (now : string) :
  let a := register bcrypt_hash jwt_sign st b now in
  camps a.1 = camps st ∧ selections a.1 = selections st ∧
  (response_user a.2 = None ↔
     truthy (r_name b) = false ∨ truthy (r_email b) = false ∨
     truthy (r_password b) = false ∨ truthy (r_role b) = false ∨
     (r_role b ≠ VStr "volunteer" ∧ r_role b ≠ VStr "refugee") ∨
     is_Some (find_email (users st) (r_email b)) ∨
     (∀ p, r_password b ≠ VStr p)) ∧
  (response_user a.2 = None → a.1 = st) ∧
  (is_Some (response_user a.2) → length (users a.1) = S (length (users st))).
Proof.
  intros a. subst a.
  destruct (register bcrypt_hash jwt_sign st b now) as [st1 r] eqn:Hreg.
  destruct (response_user r) as [user|] eqn:Hr.
  - (* a user was stored *)
    destruct r as [status error | status message user' token | user'];
      simplify_eq/=.
    + apply register_success in Hreg
        as (p & nu & Hp & Hn & He & Hpw & Hrole & Hfind & -> & _).
      simpl. split_and!; try done.
      * split; [done|].
        intros [H|[H|[H|[H|[[H1 H2]|[H|H]]]]]]; try congruence.
        -- by destruct Hrole as [Hrole|Hrole]; rewrite Hrole in H.
        -- by destruct Hrole.
        -- rewrite Hfind in H. by destruct H.
      * intros _. rewrite length_app. simpl. lia.
    + (* [register] never answers like [verify] *)
      exfalso. revert Hreg. unfold register.
      destruct (_ || _); [done|]. destruct (negb _); [done|].
      destruct (find_email _ _); [done|]. by destruct (r_password b).
  - (* an error *)
    assert (st1 = st) as ->.
    { revert Hr. revert Hreg. unfold register.
      destruct (_ || _); [by intros [= <- <-]|].
      destruct (negb _); [by intros [= <- <-]|].
      destruct (find_email _ _); [by intros [= <- <-]|].
      destruct (r_password b); by intros [= <- <-]. }
    simpl. rewrite Hr. split_and!; try done.
    all: try (by intros [? [=]]).
    split; [intros _|done]. revert Hr. revert Hreg. unfold register.
    destruct (truthy (r_name b)); [|by eauto].
    destruct (truthy (r_email b)); [|by eauto].
    destruct (truthy (r_password b)); [|by eauto 6].
    destruct (truthy (r_role b)); [simpl|by eauto 6].
    destruct (strict_eq (r_role b) (VStr "volunteer")) eqn:Hv; simpl.
    + destruct (find_email _ _); [by eauto 10|].
      destruct (r_password b); try (intros _ _; by do 6 right).
      by intros [= _ <-].
    + destruct (strict_eq (r_role b) (VStr "refugee")) eqn:Hf; simpl.
      * destruct (find_email _ _); [by eauto 10|].
        destruct (r_password b); try (intros _ _; by do 6 right).
        by intros [= _ <-].
      * intros _ _. do 4 right. left.
        split; intros Heq; rewrite Heq in *; by vm_compute in Hv, Hf.
Qed.

Lemma list_find_snoc {A} (P : A → Prop) `{!∀ x, Decision (P x)}
    (l : list A) (x : A) :
  list_find P l = None →
  list_find P (l ++ [x]) = if decide (P x) then Some (length l, x) else None.
Proof.
  intros Hl. rewrite list_find_app_r by done. simpl.
  by destruct (decide (P x)).
Qed.

Lemma list_find_snoc_keep {A} (P : A → Prop) `{!∀ x, Decision (P x)}
    (l : list A) (x : A) (i : nat) (y : A) :
  list_find P l = Some (i, y) → list_find P (l ++ [x]) = Some (i, y).
Proof. apply list_find_app_l. Qed.

(** Logging in after registering.  Once a registration has succeeded, a
    login with the registered email and a text password is decided by
    [bcrypt.compare] against the stored hash alone: when it accepts, the
    answer carries the same user object and the same token as the
    registration did; when it refuses, the answer is 401.  The store is not
    changed either way. *)
Theorem login_after_register
    (bcrypt_hash : string → string)
    (bcrypt_compare : string → string → bool)
    (jwt_sign : JsVal → JsVal → JsVal → string)
    (st st1 : Store) (b : RegisterBody) (now : string)
    (status : Z) (message : string) (user : User) (token : string)
    (password attempt : string) :
  register bcrypt_hash jwt_sign st b now
    = (st1, AuthOk status message user token) →
  r_password b = VStr password →
  login bcrypt_compare jwt_sign st1 (mkLoginBody (r_email b) (VStr attempt))
  = (st1,
     if negb (String.eqb attempt "") then
       if bcrypt_compare attempt (bcrypt_hash password)
       then AuthOk 200 "Login successful" user token
       else AuthErr 401 "Invalid credentials"
     else AuthErr 400 "Email and password required").
Proof.
  intros Hreg Hpw.
  apply register_success in Hreg
    as (p & nu & Hp & Hn & He & _ & Hrole & Hfind & -> & Hid & _ & Hemail
        & Hr & Hhash & _ & _ & -> & ->).
  assert (p = password) as -> by congruence.
  unfold login. simpl. rewrite He. simpl.
  destruct (String.eqb attempt ""); simpl; [done|].
  unfold find_email in *. rewrite (list_find_snoc _ _ _ Hfind).
  rewrite Hemail, decide_True by (by apply strict_eq_refl).
  rewrite Hhash, Hid, Hr, ?Hemail.
  by destruct (bcrypt_compare attempt (bcrypt_hash password)).
Qed.

Lemma login_after_register_witness :
  ∃ st1 user token,
    register sample_hash sample_sign seeded dora_registration noon
    = (st1, AuthOk 201 "User registered successfully" user token) ∧
    login sample_compare sample_sign st1
          (mkLoginBody (VStr "dora@example.org") (VStr "s3cret"))
    = (st1, AuthOk 200 "Login successful" user token) ∧
    login sample_compare sample_sign st1
          (mkLoginBody (VStr "dora@example.org") (VStr "guess"))
    = (st1, AuthErr 401 "Invalid credentials").
Proof.
  destruct (register sample_hash sample_sign seeded dora_registration noon)
    as [st1 r] eqn:Ha.
  pose proof (f_equal snd Ha) as Hr. simpl in Hr. vm_compute in Hr.
  subst r. eexists st1, _, _. split; [reflexivity|].
  split.
  - exact (login_after_register sample_hash sample_compare sample_sign
             seeded st1 dora_registration noon _ _ _ _ "s3cret" "s3cret"
             Ha eq_refl).
  - exact (login_after_register sample_hash sample_compare sample_sign
             seeded st1 dora_registration noon _ _ _ _ "s3cret" "guess"
             Ha eq_refl).
Defined.
